(** * discord.ui: views, the view store and select menus

    A shallow embedding of [discord/ui/view.py] and [discord/ui/select.py].
    Python objects live in a heap and are named by references, so that the
    sharing between a view's [children], the entries of the store and the
    message table is the sharing the program has.  Dictionaries whose
    iteration order is irrelevant are [gmap]s; the message table, which is
    searched in insertion order, is an association list.  Clock readings
    ([time.monotonic()]), timeouts and expiries are binary64 floats with
    the interpreter's addition and comparisons; a reading is passed to the
    operation that takes it. *)

From Stdlib Require Import Floats.
From stdpp Require Import gmap strings list fin_maps sorting.
From Stdlib Require Import ZArith Lia.

(** ** Python values and exceptions *)

Inductive PyExc := KeyError | ValueError | TypeError | InvalidStateError.

Inductive Outcome (A : Type) :=
  | Returns (a : A)
  | Raises (e : PyExc).
Arguments Returns {A} a.
Arguments Raises {A} e.

#[global] Instance PyExc_eq_dec : EqDecision PyExc.
Proof. solve_decision. Defined.

(** A reference to a heap object (a Python object identity). *)
Definition ref := nat.

(** [sys.maxsize] of a 64-bit interpreter. *)
Definition maxsize : Z := 2 ^ 63 - 1.

(** ** Components and interactions (declared outside the two modules) *)

(** Modelled from the spec: the declarations of [discord.enums] and
    [discord.components] the two modules use: the component kinds with their
    wire values, select options, and the component descriptor classes.
    [custom_id] holds [None] for Python's [None]; a bare [Component] has no
    such attribute at all. *)
Module components.

Inductive ComponentType := action_row | button | select.

Definition value (t : ComponentType) : Z :=
  match t with action_row => 1 | button => 2 | select => 3 end.

Record SelectOption := {
  label : string;
  option_value : string;
  description : option string;
  emoji : option string;
  default : bool
}.

Inductive ComponentClass := ButtonComponent | SelectMenu | BareComponent.

Record ComponentData := {
  cls : ComponentClass;
  type : ComponentType;
  custom_id : option string;
  placeholder : option string;
  min_values : Z;
  max_values : Z;
  options : list SelectOption
}.

#[warnings="-register-all"]
Inductive Component :=
  | ActionRowComponent (row_children : list Component)
  | Leaf (d : ComponentData).

Definition set_options (os : list SelectOption) (c : ComponentData) : ComponentData :=
  {| cls := cls c; type := type c; custom_id := custom_id c;
     placeholder := placeholder c; min_values := min_values c;
     max_values := max_values c; options := os |}.

End components.

Abbreviation ComponentData := components.ComponentData.
Abbreviation Component := components.Component.
Abbreviation SelectOption := components.SelectOption.

(** The part of an interaction the two modules read: [data.get('values')]
    and [response._responded]. *)
Record Interaction := {
  data_values : option (list string);
  _responded : bool
}.

(** A dispatch key [(component_type, custom_id)]. *)
Abbreviation Key := (Z * option string)%type.

(** ** Items *)

(** The identity of the coroutine bound to an item as its [callback]. *)
Definition Handler := nat.

(** [Select] is defined in [select.py]; every other item class ([Button],
    the bare [Item]) is foreign to the two modules. *)
Inductive ItemClass := SelectItem | ForeignItem.

Record Item := {
  item_class : ItemClass;
  _underlying : ComponentData;
  _selected_values : list string;
  group_id : option Z;
  callback : Handler;
  _view : option ref
}.

Definition set_underlying (c : ComponentData) (it : Item) : Item :=
  {| item_class := item_class it; _underlying := c;
     _selected_values := _selected_values it; group_id := group_id it;
     callback := callback it; _view := _view it |}.

Definition set_selected_values (vs : list string) (it : Item) : Item :=
  {| item_class := item_class it; _underlying := _underlying it;
     _selected_values := vs; group_id := group_id it;
     callback := callback it; _view := _view it |}.

Definition set_item_view (v : option ref) (it : Item) : Item :=
  {| item_class := item_class it; _underlying := _underlying it;
     _selected_values := _selected_values it; group_id := group_id it;
     callback := callback it; _view := v |}.

(** ** select.py *)

Module Select.

(** [Select.__init__]; [custom_id] is the identifier after the
    [os.urandom(16).hex()] default has been applied by the caller, and [cb]
    the callback the view binds to the new item right after. *)
Definition __init__ (custom_id : string) (placeholder : option string)
    (min_values max_values : Z) (options : list SelectOption)
    (group : option Z) (cb : Handler) : Item :=
  {| item_class := SelectItem;
     _underlying := {| components.cls := components.SelectMenu;
                       components.type := components.select;
                       components.custom_id := Some custom_id;
                       components.placeholder := placeholder;
                       components.min_values := min_values;
                       components.max_values := max_values;
                       components.options := options |};
     _selected_values := [];
     group_id := group;
     callback := cb;
     _view := None |}.

Definition custom_id (self : Item) : option string :=
  components.custom_id (_underlying self).

Definition options (self : Item) : list SelectOption :=
  components.options (_underlying self).

Definition type (self : Item) : components.ComponentType :=
  components.type (_underlying self).

Definition values (self : Item) : list string := _selected_values self.

(** [append_option]: the guard is [len(options) > 25]; the append
    mutates the list held by [_underlying]. *)
Definition append_option (option : SelectOption) (self : Item) : Outcome Item :=
  if (25 <? length (options self))%nat
  then Raises ValueError
  else Returns (set_underlying
                  (components.set_options (options self ++ [option]) (_underlying self))
                  self).

(** [emoji] is the emoji after [PartialEmoji.from_str]. *)
Definition add_option (label value : string) (description : option string)
    (emoji : option string) (default : bool) (self : Item) : Outcome Item :=
  let option := {| components.label := label;
                   components.option_value := value;
                   components.description := description;
                   components.emoji := emoji;
                   components.default := default |} in
  append_option option self.

Definition refresh_component (component : ComponentData) (self : Item) : Item :=
  set_underlying component self.

(** [self._selected_values = data.get('values', [])] *)
Definition refresh_state (interaction : Interaction) (self : Item) : Item :=
  set_selected_values
    (match data_values interaction with Some vs => vs | None => [] end)
    self.

Definition from_component (component : ComponentData) (cb : Handler) : Item :=
  {| item_class := SelectItem;
     _underlying := {| components.cls := components.SelectMenu;
                       components.type := components.select;
                       components.custom_id := components.custom_id component;
                       components.placeholder := components.placeholder component;
                       components.min_values := components.min_values component;
                       components.max_values := components.max_values component;
                       components.options := components.options component |};
     _selected_values := [];
     group_id := None;
     callback := cb;
     _view := None |}.

Definition is_dispatchable (self : Item) : bool := true.

End Select.

(** ** The event loop: futures, timers and tasks *)

Module asyncio.

(** A future of a boolean result; [cancelled] futures do not occur. *)
Inductive Future := Pending | Done (result : bool).

(** [Future.set_result]: raises [InvalidStateError] once the future is done. *)
Definition set_result (r : bool) (f : Future) : Outcome Future :=
  match f with
  | Pending => Returns (Done r)
  | Done _ => Raises InvalidStateError
  end.

(** The handle returned by [loop.call_later(delay, view.dispatch_timeout)]. *)
Record TimerHandle := { delay : float; target : ref; cancelled : bool }.

Definition cancel (h : TimerHandle) : TimerHandle :=
  {| delay := delay h; target := target h; cancelled := true |}.

(** What [asyncio.create_task] was given. *)
Inductive Task :=
  | scheduled_task (view item : ref) (interaction : Interaction)
  | on_timeout (view : ref).

End asyncio.

(** ** view.py: the objects *)

(** [partial(store.remove_view)], the only value [_cancel_callback] takes. *)
Inductive CancelCallback := store_remove_view.

Record View := {
  timeout : option float;
  children : list ref;
  id : string;
  _cancel_callback : option CancelCallback;
  _timeout_handler : option ref;
  _stopped : asyncio.Future
}.

(** An entry [(view, item, expiry)] of [ViewStore._views]. *)
Abbreviation Entry := (ref * ref * option float)%type.

Record ViewStore := {
  _views : gmap Key Entry;
  _synced_message_views : list (Z * ref)
}.

(** The heap of items, views and timer handles, the tasks handed to the
    loop, and the one store. *)
Record World := {
  items : ref -> Item;
  next_item : ref;
  views : ref -> View;
  timers : list asyncio.TimerHandle;
  tasks : list asyncio.Task;
  store : ViewStore
}.

(** What awaiting [interaction_check] gives: a result, an exception that
    [except Exception] catches, or one that it does not catch (a
    [BaseException] outside [Exception]: [CancelledError],
    [KeyboardInterrupt], [SystemExit]). *)
Inductive CheckOutcome :=
  | CheckReturns (allow : bool)
  | CheckRaises
  | CheckRaisesBase.

Inductive HandlerOutcome :=
  | HandlerReturns (after : Interaction)
  | HandlerRaises (after : Interaction).

(** What awaiting [interaction.response.defer()] gives. *)
Inductive DeferOutcome :=
  | DeferReturns (after : Interaction)
  | DeferRaises (after : Interaction).

(** The truth value of a float: zero of either sign is falsy, every other
    float, a NaN included, is truthy. *)
Definition truthy (t : float) : bool := negb (t =? 0)%float.

(** What the two modules call but do not define: the methods of the foreign
    item classes, serialisation, the component factories, and the two user
    hooks ([interaction_check], and the coroutine behind a [callback]), and
    [InteractionResponse.defer] of [discord/interactions.py]. *)
Class Collaborators := {
  Payload : Type;
  ComponentPayload : Type;
  to_dict : ComponentData -> Payload;
  foreign_to_component_dict : Item -> Payload;
  foreign_type_value : Item -> Z;
  foreign_custom_id : Item -> option string;
  foreign_is_dispatchable : Item -> bool;
  foreign_refresh_component : ComponentData -> Item -> Item;
  foreign_refresh_state : Interaction -> Item -> Item;
  Button_from_component : ComponentData -> Item;
  Item_from_component : Component -> Item;
  _component_factory : ComponentPayload -> Component;
  interaction_check : View -> Interaction -> CheckOutcome;
  run_callback : Handler -> Interaction -> HandlerOutcome;
  response_defer : Interaction -> DeferOutcome
}.

(** *** Field updates *)

Definition upd {A : Type} (h : ref -> A) (r : ref) (x : A) : ref -> A :=
  fun r' => if decide (r' = r) then x else h r'.

Definition with_children (cs : list ref) (v : View) : View :=
  {| timeout := timeout v; children := cs; id := id v;
     _cancel_callback := _cancel_callback v;
     _timeout_handler := _timeout_handler v; _stopped := _stopped v |}.

Definition with_cancel_callback (c : option CancelCallback) (v : View) : View :=
  {| timeout := timeout v; children := children v; id := id v;
     _cancel_callback := c;
     _timeout_handler := _timeout_handler v; _stopped := _stopped v |}.

Definition with_timeout_handler (h : option ref) (v : View) : View :=
  {| timeout := timeout v; children := children v; id := id v;
     _cancel_callback := _cancel_callback v;
     _timeout_handler := h; _stopped := _stopped v |}.

Definition with_stopped (f : asyncio.Future) (v : View) : View :=
  {| timeout := timeout v; children := children v; id := id v;
     _cancel_callback := _cancel_callback v;
     _timeout_handler := _timeout_handler v; _stopped := f |}.

Definition set_item (r : ref) (it : Item) (w : World) : World :=
  {| items := upd (items w) r it; next_item := next_item w; views := views w;
     timers := timers w; tasks := tasks w; store := store w |}.

(** Allocation of a new item object. *)
Definition new_item (it : Item) (w : World) : World * ref :=
  ({| items := upd (items w) (next_item w) it; next_item := S (next_item w);
      views := views w; timers := timers w; tasks := tasks w;
      store := store w |}, next_item w).

Definition set_view (r : ref) (v : View) (w : World) : World :=
  {| items := items w; next_item := next_item w; views := upd (views w) r v;
     timers := timers w; tasks := tasks w; store := store w |}.

Definition set_timers (ts : list asyncio.TimerHandle) (w : World) : World :=
  {| items := items w; next_item := next_item w; views := views w;
     timers := ts; tasks := tasks w; store := store w |}.

Definition create_task (t : asyncio.Task) (w : World) : World :=
  {| items := items w; next_item := next_item w; views := views w;
     timers := timers w; tasks := tasks w ++ [t]; store := store w |}.

Definition set_store (s : ViewStore) (w : World) : World :=
  {| items := items w; next_item := next_item w; views := views w;
     timers := timers w; tasks := tasks w; store := s |}.

Definition set__views (m : gmap Key Entry) (w : World) : World :=
  set_store {| _views := m;
               _synced_message_views := _synced_message_views (store w) |} w.

Definition set_synced (l : list (Z * ref)) (w : World) : World :=
  set_store {| _views := _views (store w); _synced_message_views := l |} w.

(** ** Python built-ins used by view.py *)

Section Builtins.
Context {A : Type} (key : A -> Z).

(** [sorted(l, key=key)]: a stable sort. *)
Fixpoint insert_stable (x : A) (l : list A) : list A :=
  match l with
  | [] => [x]
  | y :: l' => if (key x <=? key y)%Z then x :: y :: l'
               else y :: insert_stable x l'
  end.

Fixpoint sorted (l : list A) : list A :=
  match l with
  | [] => []
  | x :: l' => insert_stable x (sorted l')
  end.

(** [itertools.groupby(l, key=key)]: the maximal runs of equal keys. *)
Fixpoint groupby (l : list A) : list (Z * list A) :=
  match l with
  | [] => []
  | x :: l' =>
      match groupby l' with
      | (k, g) :: gs =>
          if (key x =? k)%Z then (k, x :: g) :: gs
          else (key x, [x]) :: (k, g) :: gs
      | [] => [(key x, [x])]
      end
  end.

(** [range(0, stop, step)] for a positive [step]. *)
Definition range (stop step : nat) : list nat :=
  map (fun j => j * step)%nat (seq 0 ((stop + step - 1) / step)).

(** [l[i:j]] for [0 <= i <= j]. *)
Definition slice (i j : nat) (l : list A) : list A := take (j - i) (drop i l).

End Builtins.

(** The message table: a dictionary in insertion order. *)
Fixpoint dict_get (k : Z) (d : list (Z * ref)) : option ref :=
  match d with
  | [] => None
  | (k', v) :: d' => if decide (k = k') then Some v else dict_get k d'
  end.

Fixpoint dict_set (k : Z) (v : ref) (d : list (Z * ref)) : list (Z * ref) :=
  match d with
  | [] => [(k, v)]
  | (k', v') :: d' =>
      if decide (k = k') then (k, v) :: d' else (k', v') :: dict_set k v d'
  end.

(** [for key, value in d.items(): if p(value): del d[key]; break] *)
Fixpoint del_first (p : ref -> bool) (d : list (Z * ref)) : list (Z * ref) :=
  match d with
  | [] => []
  | (k, v) :: d' => if p v then d' else (k, v) :: del_first p d'
  end.

(** ** view.py *)

Section view.
Context `{C : Collaborators}.

(** *** The item interface, by class *)

Definition is_dispatchable (it : Item) : bool :=
  match item_class it with
  | SelectItem => Select.is_dispatchable it
  | ForeignItem => foreign_is_dispatchable it
  end.

(** [(item.type.value, item.custom_id)] *)
Definition item_key (it : Item) : Key :=
  match item_class it with
  | SelectItem => (components.value (Select.type it), Select.custom_id it)
  | ForeignItem => (foreign_type_value it, foreign_custom_id it)
  end.

Definition refresh_component (component : ComponentData) (it : Item) : Item :=
  match item_class it with
  | SelectItem => Select.refresh_component component it
  | ForeignItem => foreign_refresh_component component it
  end.

Definition refresh_state (interaction : Interaction) (it : Item) : Item :=
  match item_class it with
  | SelectItem => Select.refresh_state interaction it
  | ForeignItem => foreign_refresh_state interaction it
  end.

Definition to_component_dict (it : Item) : Payload :=
  match item_class it with
  | SelectItem => to_dict (_underlying it)
  | ForeignItem => foreign_to_component_dict it
  end.

(** *** Module functions *)

Definition _walk_all_components (components : list Component) : list Component :=
  flat_map (fun item =>
              match item with
              | components.ActionRowComponent row_children => row_children
              | components.Leaf _ => [item]
              end) components.

Definition _component_to_item (component : Component) : Item :=
  match component with
  | components.Leaf d =>
      match components.cls d with
      | components.ButtonComponent => Button_from_component d
      | _ => Item_from_component component
      end
  | _ => Item_from_component component
  end.

(** *** class View *)

(** A class under construction: the [__dict__] values of the classes of
    its [__mro__], each flagged with [hasattr(member,
    '__discord_ui_model_type__')]. *)
Record Member := { member_name : string; is_model : bool }.

Definition __init_subclass__ (mro : list (list Member)) : Outcome (list Member) :=
  let children := flat_map (List.filter is_model) (rev mro) in
  if (25 <? length children)%nat then Raises TypeError
  else Returns children.

(** The sort key of [to_components]. *)
Definition key (w : World) (item : ref) : Z :=
  match group_id (items w item) with
  | None => maxsize
  | Some g => g
  end.

Record ActionRow := { row_type : Z; row_components : list Payload }.

Definition to_components (w : World) (self : ref) : list ActionRow :=
  let children := sorted (key w) (children (views w self)) in
  flat_map
    (fun kg : Z * list ref =>
       let group := kg.2 in
       if (length group <=? 5)%nat then
         [ {| row_type := 1%Z;
              row_components :=
                map (fun item => to_component_dict (items w item)) group |} ]
       else
         map (fun index =>
                {| row_type := 1%Z;
                   row_components :=
                     map (fun item => to_component_dict (items w item))
                         (slice index (index + 5) group) |})
             (range (length group) 5))
    (groupby (key w) children).

(** [if self.timeout: return time.monotonic() + self.timeout]; [None] and
    zero are both falsy, and the sum is the float sum.  [now] is the clock
    reading taken here. *)
Definition _expires_at (now : float) (self : View) : option float :=
  match timeout self with
  | Some t => if truthy t then Some (now + t)%float else None
  | None => None
  end.

(** [item] is a reference to an [Item], so the [isinstance] test passes. *)
Definition add_item (w : World) (self item : ref) : World * Outcome unit :=
  if (25 <? length (children (views w self)))%nat
  then (w, Raises ValueError)
  else
    let w1 := set_item item (set_item_view (Some self) (items w item)) w in
    (set_view self
       (with_children (children (views w1 self) ++ [item]) (views w1 self)) w1,
     Returns tt).

Record TaskResult := {
  invoked : list Handler;   (* the callbacks awaited, in order *)
  deferred : nat;           (* calls of [interaction.response.defer()] *)
  raised : bool;            (* an exception left the task *)
  interaction_after : Interaction
}.

(** The part of [_scheduled_task] after [if not allow: return]. *)
Definition run_item (w : World) (item : ref) (interaction : Interaction)
    : TaskResult :=
  match run_callback (callback (items w item)) interaction with
  | HandlerRaises after =>
      {| invoked := [callback (items w item)]; deferred := 0;
         raised := true; interaction_after := after |}
  | HandlerReturns after =>
      if negb (_responded after) then
        match response_defer after with
        | DeferReturns after' =>
            {| invoked := [callback (items w item)]; deferred := 1;
               raised := false; interaction_after := after' |}
        | DeferRaises after' =>
            {| invoked := [callback (items w item)]; deferred := 1;
               raised := true; interaction_after := after' |}
        end
      else
        {| invoked := [callback (items w item)]; deferred := 0;
           raised := false; interaction_after := after |}
  end.

Definition _scheduled_task (w : World) (self item : ref)
    (interaction : Interaction) : TaskResult :=
  match interaction_check (views w self) interaction with
  | CheckRaisesBase =>
      {| invoked := []; deferred := 0; raised := true;
         interaction_after := interaction |}
  | CheckRaises =>
      {| invoked := []; deferred := 0; raised := false;
         interaction_after := interaction |}
  | CheckReturns allow =>
      if negb allow then
        {| invoked := []; deferred := 0; raised := false;
           interaction_after := interaction |}
      else run_item w item interaction
  end.

Definition _start_listening (w : World) (self : ref) : World :=
  let w1 := set_view self
              (with_cancel_callback (Some store_remove_view) (views w self)) w in
  match timeout (views w1 self) with
  | Some t =>
      if truthy t then
        let handle := length (timers w1) in
        let w2 := set_timers
                    (timers w1 ++ [ {| asyncio.delay := t;
                                       asyncio.target := self;
                                       asyncio.cancelled := false |} ]) w1 in
        set_view self (with_timeout_handler (Some handle) (views w2 self)) w2
      else w1
  | None => w1
  end.

Definition dispatch_timeout (w : World) (self : ref) : World * Outcome unit :=
  match asyncio.set_result true (_stopped (views w self)) with
  | Raises e => (w, Raises e)
  | Returns f =>
      (create_task (asyncio.on_timeout self)
         (set_view self (with_stopped f (views w self)) w), Returns tt)
  end.

(** [View.dispatch] *)
Definition View_dispatch (w : World) (self item : ref)
    (interaction : Interaction) : World :=
  create_task (asyncio.scheduled_task self item interaction) w.

(** The dictionary [old_state] built by [refresh]. *)
Definition old_state (w : World) (self : ref) : gmap Key ref :=
  fold_left (fun d item =>
               if is_dispatchable (items w item)
               then <[item_key (items w item) := item]> d
               else d)
            (children (views w self)) ∅.

(** The key under which [refresh] looks a component up; [None] where
    reading [custom_id] raises [AttributeError]. *)
Definition component_key (component : Component) : option (Key * ComponentData) :=
  match component with
  | components.Leaf d =>
      match components.cls d with
      | components.BareComponent => None
      | _ => Some ((components.value (components.type d),
                    components.custom_id d), d)
      end
  | components.ActionRowComponent _ => None
  end.

(** [old_state[(component.type.value, component.custom_id)]]: [None]
    where the subscript raises [KeyError] or [AttributeError]. *)
Definition lookup_older (old : gmap Key ref) (component : Component)
    : option (ref * ComponentData) :=
  match component_key component with
  | Some (k, d) =>
      match old !! k with
      | Some older => Some (older, d)
      | None => None
      end
  | None => None
  end.

(** The loop of [refresh]: the heap and the local list [children]. *)
Fixpoint refresh_loop (old : gmap Key ref) (comps : list Component)
    (w : World) (children : list ref) : World * list ref :=
  match comps with
  | [] => (w, children)
  | component :: rest =>
      match lookup_older old component with
      | None =>
          let '(w1, r) := new_item (_component_to_item component) w in
          refresh_loop old rest w1 (children ++ [r])
      | Some (older, d) =>
          let w1 := set_item older (refresh_component d (items w older)) w in
          refresh_loop old rest w1 (children ++ [older])
      end
  end.

Definition refresh (w : World) (self : ref) (components : list Component) : World :=
  let old := old_state w self in
  let '(w1, children) :=
    refresh_loop old (_walk_all_components components) w [] in
  set_view self (with_children children (views w1 self)) w1.

(** *** class ViewStore *)

(** [expiry is not None and now >= expiry] *)
Definition expired (now : float) (e : Entry) : bool :=
  match e.2 with
  | Some expiry => (expiry <=? now)%float
  | None => false
  end.

Definition __verify_integrity (now : float) (w : World) : World :=
  set__views
    (filter (fun kv : Key * Entry => expired now kv.2 = false)
            (_views (store w))) w.

(** [now_sweep] is the clock reading of [__verify_integrity], [now] the
    later one of [view._expires_at]. *)
Definition add_view (now_sweep now : float) (w : World) (view : ref)
    (message_id : option Z) : World * Outcome unit :=
  let w1 := __verify_integrity now_sweep w in
  let expiry := _expires_at now (views w1 view) in
  let w2 := _start_listening w1 view in
  let w3 :=
    fold_left (fun w item =>
                 if is_dispatchable (items w item)
                 then set__views
                        (<[item_key (items w item) := (view, item, expiry)]>
                           (_views (store w))) w
                 else w)
              (children (views w2 view)) w2 in
  match message_id with
  | Some m =>
      (set_synced (dict_set m view (_synced_message_views (store w3))) w3,
       Returns tt)
  | None => (w3, Returns tt)
  end.

(** The first loop of [remove_view]; [dict.pop(key)] raises [KeyError]
    on a missing key. *)
Fixpoint pop_items (w : World) (children : list ref) : World * Outcome unit :=
  match children with
  | [] => (w, Returns tt)
  | item :: rest =>
      if is_dispatchable (items w item) then
        match _views (store w) !! item_key (items w item) with
        | None => (w, Raises KeyError)
        | Some _ =>
            pop_items
              (set__views (delete (item_key (items w item)) (_views (store w))) w)
              rest
        end
      else pop_items w rest
  end.

Definition remove_view (w : World) (view : ref) : World * Outcome unit :=
  match pop_items w (children (views w view)) with
  | (w1, Raises e) => (w1, Raises e)
  | (w1, Returns _) =>
      (set_synced
         (del_first (fun value => bool_decide (id (views w1 value) = id (views w1 view)))
                    (_synced_message_views (store w1))) w1,
       Returns tt)
  end.

(** [View.stop] *)
Definition stop (w : World) (self : ref) : World * Outcome unit :=
  match asyncio.set_result false (_stopped (views w self)) with
  | Raises e => (w, Raises e)
  | Returns f =>
      let w1 := set_view self (with_stopped f (views w self)) w in
      let w2 :=
        match _timeout_handler (views w1 self) with
        | Some h => set_timers (alter asyncio.cancel h (timers w1)) w1
        | None => w1
        end in
      match _cancel_callback (views w2 self) with
      | Some store_remove_view => remove_view w2 self
      | None => (w2, Returns tt)
      end
  end.

(** [ViewStore.dispatch] *)
Definition dispatch (now_sweep now : float) (w : World) (component_type : Z)
    (custom_id : string) (interaction : Interaction) : World :=
  let w1 := __verify_integrity now_sweep w in
  let key := (component_type, Some custom_id) in
  match _views (store w1) !! key with
  | None => w1
  | Some (view, item, _) =>
      let w2 := set__views
                  (<[key := (view, item, _expires_at now (views w1 view))]>
                     (_views (store w1))) w1 in
      let w3 := set_item item (refresh_state interaction (items w2 item)) w2 in
      View_dispatch w3 view item interaction
  end.

Definition is_message_tracked (w : World) (message_id : Z) : bool :=
  bool_decide (is_Some (dict_get message_id (_synced_message_views (store w)))).

Definition update_from_message (w : World) (message_id : Z)
    (components : list ComponentPayload) : World * Outcome unit :=
  match dict_get message_id (_synced_message_views (store w)) with
  | None => (w, Raises KeyError)
  | Some view => (refresh w view (map _component_factory components), Returns tt)
  end.

End view.

(** ** Loop bodies, named for the proofs *)

(** One step of the registration loop of [add_view], on the dictionary. *)
Definition register `{C : Collaborators} (view : ref) (expiry : option float)
    (its : ref -> Item) (m : gmap Key Entry) (item : ref) : gmap Key Entry :=
  if is_dispatchable (its item)
  then <[item_key (its item) := (view, item, expiry)]> m
  else m.

(** The rows [to_components] cuts a group into, and the rows of a whole
    list of children, as lists of members. *)
Definition chunks {A : Type} (group : list A) : list (list A) :=
  if (length group <=? 5)%nat then [group]
  else map (fun index => slice index (index + 5) group) (range (length group) 5).

Definition layout {A : Type} (key : A -> Z) (l : list A) : list (list A) :=
  flat_map (fun kg : Z * list A => chunks kg.2) (groupby key (sorted key l)).

(** The row descriptor of a list of members. *)
Definition row_of `{C : Collaborators} (w : World) (members : list ref) : ActionRow :=
  {| row_type := 1%Z;
     row_components := map (fun item => to_component_dict (items w item)) members |}.

(** ** Further methods of View *)

(** [list.remove(item)]: drops the first occurrence and raises [ValueError]
    when there is none.  Items compare by identity: [select.py] defines no
    [__eq__]. *)
Fixpoint list_remove (item : ref) (l : list ref) : Outcome (list ref) :=
  match l with
  | [] => Raises ValueError
  | x :: l' =>
      if decide (x = item) then Returns l'
      else match list_remove item l' with
           | Returns l'' => Returns (x :: l'')
           | Raises e => Raises e
           end
  end.

(** [View.remove_item]: the [ValueError] is caught and dropped. *)
Definition remove_item (w : World) (self item : ref) : World :=
  match list_remove item (children (views w self)) with
  | Returns cs => set_view self (with_children cs (views w self)) w
  | Raises _ => w
  end.

(** [View.clear_items] *)
Definition clear_items (w : World) (self : ref) : World :=
  set_view self (with_children [] (views w self)) w.

(** [append_option] called for each option of a list in turn, up to the
    first call that raises. *)
Fixpoint append_options (os : list SelectOption) (self : Item) : Outcome Item :=
  match os with
  | [] => Returns self
  | o :: os' =>
      match Select.append_option o self with
      | Returns self' => append_options os' self'
      | Raises e => Raises e
      end
  end.

(** ** Sample objects *)

(** Collaborators with buttons-like foreign items that keep their component
    in [_underlying]; the interaction check admits an interaction unless its
    first value is ["deny"] (refused), ["boom"] (the check raises an
    [Exception]) or ["cancel"] (it raises [CancelledError]); handler [1]
    responds, handler [2] raises, every other handler returns quietly;
    deferring responds, unless the first value is ["offline"], when it
    raises. *)
Definition sample : Collaborators :=
  {| Payload := ComponentData;
     ComponentPayload := Component;
     to_dict := fun c => c;
     foreign_to_component_dict := _underlying;
     foreign_type_value := fun it => components.value (components.type (_underlying it));
     foreign_custom_id := fun it => components.custom_id (_underlying it);
     foreign_is_dispatchable :=
       fun it => bool_decide (is_Some (components.custom_id (_underlying it)));
     foreign_refresh_component := set_underlying;
     foreign_refresh_state := fun _ it => it;
     Button_from_component :=
       fun d => {| item_class := ForeignItem; _underlying := d;
                   _selected_values := []; group_id := None;
                   callback := 0; _view := None |};
     Item_from_component :=
       fun _ => {| item_class := ForeignItem;
                   _underlying :=
                     {| components.cls := components.BareComponent;
                        components.type := components.action_row;
                        components.custom_id := None;
                        components.placeholder := None;
                        components.min_values := 0; components.max_values := 0;
                        components.options := [] |};
                   _selected_values := []; group_id := None;
                   callback := 0; _view := None |};
     _component_factory := fun c => c;
     interaction_check :=
       fun _ i => match data_values i with
                  | Some ("deny" :: _) => CheckReturns false
                  | Some ("boom" :: _) => CheckRaises
                  | Some ("cancel" :: _) => CheckRaisesBase
                  | _ => CheckReturns true
                  end;
     run_callback :=
       fun h i => match h with
                  | 1 => HandlerReturns {| data_values := data_values i;
                                           _responded := true |}
                  | 2 => HandlerRaises i
                  | _ => HandlerReturns i
                  end;
     response_defer :=
       fun i => match data_values i with
                | Some ("offline" :: _) => DeferRaises i
                | _ => DeferReturns {| data_values := data_values i;
                                       _responded := true |}
                end |}.

Definition menu (cid : string) (group : option Z) (cb : Handler) : Item :=
  Select.__init__ cid None 1 1 [] group cb.

Definition form (t : option float) (cs : list ref) (name : string) : View :=
  {| timeout := t; children := cs; id := name; _cancel_callback := None;
     _timeout_handler := None; _stopped := asyncio.Pending |}.

Definition an_option : SelectOption :=
  {| components.label := "x"; components.option_value := "x";
     components.description := None; components.emoji := None;
     components.default := false |}.

(** A select menu holding [n] options. *)
Definition menu_with (n : nat) : Item :=
  Select.__init__ "m" None 1 1 (replicate n an_option) None 0.

(** Items 10 and 11 belong to view 1, item 20 (with the key of item 10) to
    view 2, whose timeout is zero; view 3 holds 25 items, view 4 two items
    with one key, view 5 twelve ungrouped items, view 6 three items of group
    1 among two ungrouped ones; nothing is registered. *)
Definition world0 : World :=
  {| items := fun r => match r with
                       | 10 => menu "a" None 7
                       | 11 => menu "b" None 1
                       | 20 => menu "a" None 8
                       | 50 => menu "p" (Some 1%Z) 0
                       | 52 => menu "q" (Some 1%Z) 0
                       | 53 => menu "r" (Some 1%Z) 0
                       | _ => menu "z" None 0
                       end;
     next_item := 100;
     views := fun r => match r with
                       | 1 => form (Some 180%float) [10; 11] "v1"
                       | 2 => form (Some 0%float) [20] "v2"
                       | 3 => form None (seq 30 25) "v3"
                       | 4 => form None [10; 20] "v4"
                       | 5 => form None (seq 60 12) "v5"
                       | 6 => form None [51; 50; 52; 54; 53] "v6"
                       | _ => form None [] ""
                       end;
     timers := [];
     tasks := [];
     store := {| _views := ∅; _synced_message_views := [] |} |}.

Definition click (vs : option (list string)) : Interaction :=
  {| data_values := vs; _responded := false |}.

(** [world0] after view 1 has been registered at time 0 (its entries expire
    at 180), and after view 2 has been. *)
Definition world1 : World := (add_view (C := sample) 0 0 world0 1 None).1.

Definition world2 : World := (add_view (C := sample) 0 0 world0 2 None).1.

(** The descriptor of a select menu with the given identifier. *)
Definition menu_component (cid : string) : ComponentData :=
  _underlying (menu cid None 0).

(** ** The store's contract, in the specification's words *)

(** Uniqueness: registering a view, one of whose dispatchable items carries
    a key that the store holds, raises and inserts nothing. *)
Definition add_view_rejects_collision `{C : Collaborators} (now_sweep now : float)
    (w : World) (view : ref) (message_id : option Z) : Prop :=
  (exists item, item ∈ children (views w view)
     /\ is_dispatchable (items w item) = true
     /\ is_Some (_views (store (__verify_integrity now_sweep w))
                  !! item_key (items w item))) ->
  exists e, (add_view now_sweep now w view message_id).2 = Raises e
    /\ store (add_view now_sweep now w view message_id).1
         = store (__verify_integrity now_sweep w).

(** Sliding expiration: a dispatch that finds an entry of a view with
    timeout [T] stores the expiry [now + T]. *)
Definition dispatch_slides_expiry `{C : Collaborators} (now_sweep now : float)
    (w : World) (component_type : Z) (custom_id : string)
    (interaction : Interaction) : Prop :=
  forall view item e T,
    _views (store (__verify_integrity now_sweep w))
      !! (component_type, Some custom_id) = Some (view, item, e) ->
    timeout (views w view) = Some T ->
    _views (store (dispatch now_sweep now w component_type custom_id interaction))
      !! (component_type, Some custom_id) = Some (view, item, Some (now + T)%float).

(** A failed check: whenever [interaction_check] raises or returns false,
    the task ends quietly, no callback awaited and nothing deferred. *)
Definition failed_check_is_silent `{C : Collaborators} (w : World)
    (self item : ref) (interaction : Interaction) : Prop :=
  interaction_check (views w self) interaction <> CheckReturns true ->
  raised (_scheduled_task w self item interaction) = false
  /\ invoked (_scheduled_task w self item interaction) = []
  /\ deferred (_scheduled_task w self item interaction) = 0.

(** Idempotent teardown: a second [remove_view], and a second [stop],
    return and leave the store as the first call left it. *)
Definition teardown_idempotent `{C : Collaborators} (w : World) (view : ref) : Prop :=
  ((remove_view (remove_view w view).1 view).2 = Returns tt
   /\ store (remove_view (remove_view w view).1 view).1
        = store (remove_view w view).1)
  /\ ((stop (stop w view).1 view).2 = Returns tt
      /\ store (stop (stop w view).1 view).1 = store (stop w view).1).

(** Identity preservation: every dispatchable child of the view stands, in
    the refreshed list, wherever a component carries its key. *)
Definition refresh_keeps_every_element `{C : Collaborators} (w : World)
    (self : ref) (comps : list Component) : Prop :=
  forall E i d,
    E ∈ children (views w self) ->
    is_dispatchable (items w E) = true ->
    _walk_all_components comps !! i = Some (components.Leaf d) ->
    component_key (components.Leaf d) = Some (item_key (items w E), d) ->
    children (views (refresh w self comps) self) !! i = Some E.

(** * Properties *)

(** ** select.py *)

Lemma append_option_raises (o : SelectOption) (self : Item) :
  (25 < length (Select.options self))%nat ->
  Select.append_option o self = Raises ValueError.
Proof.
  intros H. unfold Select.append_option.
  destruct (Nat.ltb_spec 25 (length (Select.options self))); [done | lia].
Qed.

Lemma append_option_returns (o : SelectOption) (self : Item) :
  (length (Select.options self) <= 25)%nat ->
  exists self', Select.append_option o self = Returns self'
    /\ Select.options self' = Select.options self ++ [o].
Proof.
  intros H. unfold Select.append_option.
  destruct (Nat.ltb_spec 25 (length (Select.options self))); [lia |].
  eexists; split; reflexivity.
Qed.

(** C6: a select menu that holds 25 options accepts one more: [append_option]
    returns and the menu then holds 26 options, the 25 earlier ones followed
    by the new one.  The guard [len(options) > 25] only refuses from 26 on. *)
Theorem append_option_at_capacity (o : SelectOption) (self : Item) :
  length (Select.options self) = 25%nat ->
  exists self', Select.append_option o self = Returns self'
    /\ Select.options self' = Select.options self ++ [o]
    /\ length (Select.options self') = 26%nat.
Proof.
  intros H.
  destruct (append_option_returns o self) as (self' & Hr & Ho); [lia |].
  exists self'. repeat split; [done | done |].
  rewrite Ho, length_app, H. reflexivity.
Qed.

Lemma append_option_at_capacity_witness :
  length (Select.options (menu_with 25)) = 25%nat
  /\ exists self', Select.append_option an_option (menu_with 25) = Returns self'
       /\ Select.options self' = Select.options (menu_with 25) ++ [an_option]
       /\ length (Select.options self') = 26%nat.
Proof.
  split; [reflexivity |].
  apply (append_option_at_capacity an_option (menu_with 25)). reflexivity.
Defined.

(** C9: [Select.refresh_state] is idempotent, and the values it stores are
    those of the interaction, the empty list when it carries none, whatever
    the menu held before. *)
Theorem refresh_state_idempotent (interaction : Interaction) (self : Item) :
  Select.refresh_state interaction (Select.refresh_state interaction self)
    = Select.refresh_state interaction self
  /\ Select.values (Select.refresh_state interaction self)
       = match data_values interaction with Some vs => vs | None => [] end
  /\ Select.values (Select.refresh_state interaction
                      (Select.refresh_state interaction self))
       = Select.values (Select.refresh_state interaction self).
Proof. repeat split. Qed.

(** ** The scheduled task *)

(** C5 (as the code has it): a check that returns false, or raises an
    exception that [except Exception] catches, ends the task quietly with no
    callback awaited and nothing deferred; a check that raises outside
    [Exception] ([CancelledError] and the like) lets its exception leave the
    task, again with no callback and nothing deferred.  A check that
    returns true has the item's callback awaited; once that returns,
    [defer] is called exactly once when the response is still unresponded
    (the task then raises exactly when that call does) and not at all when
    the handler has responded. *)
Theorem scheduled_task_check_then_ack `{C : Collaborators}
    (w : World) (self item : ref) (interaction : Interaction) :
  let r := _scheduled_task w self item interaction in
  (interaction_check (views w self) interaction = CheckRaises
   \/ interaction_check (views w self) interaction = CheckReturns false ->
     invoked r = [] /\ deferred r = 0%nat /\ raised r = false
     /\ interaction_after r = interaction)
  /\ (interaction_check (views w self) interaction = CheckRaisesBase ->
        invoked r = [] /\ deferred r = 0%nat /\ raised r = true)
  /\ (interaction_check (views w self) interaction = CheckReturns true ->
        invoked r = [callback (items w item)]
        /\ forall after,
             run_callback (callback (items w item)) interaction
               = HandlerReturns after ->
             (_responded after = false ->
                deferred r = 1%nat
                /\ (raised r = true
                    <-> exists after', response_defer after = DeferRaises after'))
             /\ (_responded after = true ->
                 deferred r = 0%nat /\ raised r = false)).
Proof.
  unfold _scheduled_task, run_item. split; [| split].
  - intros [-> | ->]; done.
  - intros ->. done.
  - intros ->. simpl.
    destruct (run_callback (callback (items w item)) interaction) as [a | a] eqn:Hrun.
    + split.
      * destruct (_responded a); [done |]. simpl.
        by destruct (response_defer a).
      * intros after [= <-]. split.
        -- intros ->. simpl. destruct (response_defer a) as [a' | a']; simpl.
           ++ split; [done |]. split; [done | by intros (? & ?)].
           ++ split; [done |]. split; [by exists a' | done].
        -- intros ->. done.
    + split; [reflexivity |]. intros after [=].
Qed.

Lemma scheduled_task_check_then_ack_witness :
  (* a refused interaction *)
  (interaction_check (Collaborators := sample) (views world0 1)
     (click (Some ["deny"])) = CheckReturns false
   /\ invoked (_scheduled_task (C := sample) world0 1 10 (click (Some ["deny"]))) = []
   /\ deferred (_scheduled_task (C := sample) world0 1 10 (click (Some ["deny"]))) = 0%nat)
  (* a cancelled check *)
  /\ (interaction_check (Collaborators := sample) (views world0 1)
        (click (Some ["cancel"])) = CheckRaisesBase
      /\ raised (_scheduled_task (C := sample) world0 1 10 (click (Some ["cancel"])))
         = true)
  (* an admitted one, handler 7 does not respond *)
  /\ (interaction_check (Collaborators := sample) (views world0 1)
        (click (Some ["go"])) = CheckReturns true
      /\ run_callback (Collaborators := sample) (callback (items world0 10))
           (click (Some ["go"])) = HandlerReturns (click (Some ["go"]))
      /\ invoked (_scheduled_task (C := sample) world0 1 10 (click (Some ["go"]))) = [7]
      /\ deferred (_scheduled_task (C := sample) world0 1 10 (click (Some ["go"]))) = 1%nat).
Proof.
  pose proof (scheduled_task_check_then_ack (C := sample) world0 1 10
                (click (Some ["deny"]))) as (Hdeny & _ & _).
  pose proof (scheduled_task_check_then_ack (C := sample) world0 1 10
                (click (Some ["cancel"]))) as (_ & Hcancel & _).
  pose proof (scheduled_task_check_then_ack (C := sample) world0 1 10
                (click (Some ["go"]))) as (_ & _ & Hgo).
  split; [| split].
  - split; [reflexivity |].
    destruct Hdeny as (Hi & Hd & _); [right; reflexivity |]. split; assumption.
  - split; [reflexivity |].
    destruct Hcancel as (_ & _ & Hr); [reflexivity | exact Hr].
  - split; [reflexivity |]. split; [reflexivity |].
    destruct Hgo as (Hi & Hk); [reflexivity |]. split; [exact Hi |].
    destruct (Hk (click (Some ["go"]))) as (Hd & _); [reflexivity |].
    destruct Hd as (Hd & _); [reflexivity | exact Hd].
Defined.

Lemma scheduled_task_cancelled_check_counterexample :
  interaction_check (Collaborators := sample) (views world0 1)
    (click (Some ["cancel"])) = CheckRaisesBase
  /\ raised (_scheduled_task (C := sample) world0 1 10 (click (Some ["cancel"])))
     = true
  /\ ~ failed_check_is_silent (C := sample) world0 1 10 (click (Some ["cancel"])).
Proof.
  split; [reflexivity |]. split; [reflexivity |].
  intros H. destruct H as (Hr & _); [discriminate |]. discriminate Hr.
Qed.

(** ** Capacity of a view *)

Lemma upd_same {A : Type} (h : ref -> A) (r : ref) (x : A) : upd h r x r = x.
Proof. unfold upd. destruct (decide (r = r)); congruence. Qed.

Lemma upd_other {A : Type} (h : ref -> A) (r r' : ref) (x : A) :
  r' <> r -> upd h r x r' = h r'.
Proof. unfold upd. intros H. destruct (decide (r' = r)); congruence. Qed.

Lemma init_subclass_over_capacity (mro : list (list Member)) :
  (25 < length (flat_map (List.filter is_model) (rev mro)))%nat ->
  __init_subclass__ mro = Raises TypeError.
Proof.
  intros H. unfold __init_subclass__.
  destruct (Nat.ltb_spec 25 (length (flat_map (List.filter is_model) (rev mro))));
    [done | lia].
Qed.

Lemma add_item_raises (w : World) (self item : ref) :
  (25 < length (children (views w self)))%nat ->
  add_item w self item = (w, Raises ValueError).
Proof.
  intros H. unfold add_item.
  destruct (Nat.ltb_spec 25 (length (children (views w self)))); [done | lia].
Qed.

(** C7: a view that already holds 25 children accepts one more: [add_item]
    returns and the view then holds 26 children.  The guard
    [len(self.children) > 25] only refuses from 26 on. *)
Theorem add_item_at_capacity (w : World) (self item : ref) :
  length (children (views w self)) = 25%nat ->
  (add_item w self item).2 = Returns tt
  /\ children (views (add_item w self item).1 self)
       = children (views w self) ++ [item]
  /\ length (children (views (add_item w self item).1 self)) = 26%nat.
Proof.
  intros H. unfold add_item.
  destruct (Nat.ltb_spec 25 (length (children (views w self)))); [lia |].
  simpl. rewrite upd_same. simpl.
  repeat split. rewrite length_app, H. reflexivity.
Qed.

Lemma add_item_at_capacity_witness :
  length (children (views world0 3)) = 25%nat
  /\ (add_item world0 3 10).2 = Returns tt
  /\ children (views (add_item world0 3 10).1 3)
       = children (views world0 3) ++ [10]
  /\ length (children (views (add_item world0 3 10).1 3)) = 26%nat.
Proof.
  split; [reflexivity |].
  apply (add_item_at_capacity world0 3 10). reflexivity.
Defined.

(** ** The message table *)

(** C10: for a message that is not tracked, [update_from_message] raises
    [KeyError] (from the subscript [_synced_message_views[message_id]]) and
    changes nothing. *)
Theorem update_from_message_untracked `{C : Collaborators}
    (w : World) (message_id : Z) (components : list ComponentPayload) :
  is_message_tracked w message_id = false ->
  update_from_message w message_id components = (w, Raises KeyError).
Proof.
  unfold is_message_tracked, update_from_message. intros H.
  destruct (dict_get message_id (_synced_message_views (store w))) as [v |]; [| done].
  apply bool_decide_eq_false in H. destruct H. by eexists.
Qed.

Lemma update_from_message_untracked_witness :
  is_message_tracked world0 5 = false
  /\ update_from_message (C := sample) world0 5 [] = (world0, Raises KeyError).
Proof.
  split; [reflexivity |].
  apply (update_from_message_untracked (C := sample) world0 5 []). reflexivity.
Defined.

(** ** The sweep *)

Lemma verify_integrity_lookup (now : float) (w : World) (k : Key) :
  _views (store (__verify_integrity now w)) !! k
  = match _views (store w) !! k with
    | Some e => if expired now e then None else Some e
    | None => None
    end.
Proof.
  unfold __verify_integrity. simpl.
  destruct (_views (store w) !! k) as [e |] eqn:Hk.
  - destruct (expired now e) eqn:He.
    + apply map_lookup_filter_None. right. intros e' He'. simpl. congruence.
    + apply map_lookup_filter_Some. split; [done | done].
  - apply map_lookup_filter_None. by left.
Qed.

Lemma verify_integrity_rest (now : float) (w : World) :
  items (__verify_integrity now w) = items w
  /\ next_item (__verify_integrity now w) = next_item w
  /\ views (__verify_integrity now w) = views w
  /\ timers (__verify_integrity now w) = timers w
  /\ tasks (__verify_integrity now w) = tasks w
  /\ _synced_message_views (store (__verify_integrity now w))
       = _synced_message_views (store w).
Proof. repeat split. Qed.

(** ** Registration *)

Section Registration.
Context `{C : Collaborators}.
Variables (view : ref) (expiry : option float) (its : ref -> Item).

Local Abbreviation register := (register view expiry its).

Lemma register_fold_hit (l : list ref) (m : gmap Key Entry) (k : Key) :
  (exists item, item ∈ l /\ is_dispatchable (its item) = true
                /\ item_key (its item) = k) ->
  exists item', item' ∈ l /\ is_dispatchable (its item') = true
                /\ item_key (its item') = k
                /\ fold_left register l m !! k = Some (view, item', expiry).
Proof.
  induction l as [| x l IH] using rev_ind; intros (item & Hin & Hd & Hk).
  - by apply elem_of_nil in Hin.
  - rewrite fold_left_app. simpl. unfold register at 1.
    destruct (is_dispatchable (its x)) eqn:Hx.
    + destruct (decide (item_key (its x) = k)) as [Heq | Hne].
      * exists x. rewrite elem_of_app, list_elem_of_singleton.
        repeat split; [by right | done | done |].
        rewrite <- Heq. apply lookup_insert_eq.
      * rewrite lookup_insert_ne by done.
        apply elem_of_app in Hin as [Hin | Hin].
        -- destruct IH as (item' & ? & ? & ? & ?); [by exists item |].
           exists item'. rewrite elem_of_app. by repeat split; [left | ..].
        -- apply list_elem_of_singleton in Hin. subst. congruence.
    + apply elem_of_app in Hin as [Hin | Hin].
      * destruct IH as (item' & ? & ? & ? & ?); [by exists item |].
        exists item'. rewrite elem_of_app. by repeat split; [left | ..].
      * apply list_elem_of_singleton in Hin. subst. congruence.
Qed.

Lemma register_fold_miss (l : list ref) (m : gmap Key Entry) (k : Key) :
  (forall item, item ∈ l -> is_dispatchable (its item) = true ->
                item_key (its item) <> k) ->
  fold_left register l m !! k = m !! k.
Proof.
  revert m. induction l as [| x l IH]; intros m H; [done |].
  simpl. rewrite IH.
  - unfold register. destruct (is_dispatchable (its x)) eqn:Hx; [| done].
    apply lookup_insert_ne. apply H; [left | done].
  - intros item Hin. apply H. by right.
Qed.

Lemma register_fold_last (before after : list ref) (item : ref)
    (m : gmap Key Entry) :
  is_dispatchable (its item) = true ->
  (forall x, x ∈ after -> is_dispatchable (its x) = true ->
             item_key (its x) <> item_key (its item)) ->
  fold_left register (before ++ item :: after) m !! item_key (its item)
  = Some (view, item, expiry).
Proof.
  intros Hd Hafter. rewrite fold_left_app. simpl.
  rewrite register_fold_miss by done.
  unfold register at 1. rewrite Hd. apply lookup_insert_eq.
Qed.

End Registration.

Lemma add_view_loop `{C : Collaborators} (view : ref) (expiry : option float)
    (l : list ref) (w : World) :
  fold_left (fun w item =>
               if is_dispatchable (items w item)
               then set__views
                      (<[item_key (items w item) := (view, item, expiry)]>
                         (_views (store w))) w
               else w) l w
  = set__views (fold_left (register view expiry (items w)) l (_views (store w))) w.
Proof.
  revert w. induction l as [| x l IH]; intros w; simpl.
  - by destruct w as [? ? ? ? ? []].
  - rewrite IH.
    assert (register view expiry (items w) (_views (store w)) x
            = if is_dispatchable (items w x)
              then <[item_key (items w x) := (view, x, expiry)]> (_views (store w))
              else _views (store w)) as -> by reflexivity.
    destruct (is_dispatchable (items w x)); [reflexivity |].
    by destruct w as [? ? ? ? ? []].
Qed.

Lemma start_listening_rest `{C : Collaborators} (w : World) (self : ref) :
  items (_start_listening w self) = items w
  /\ store (_start_listening w self) = store w
  /\ children (views (_start_listening w self) self) = children (views w self).
Proof.
  unfold _start_listening. simpl. rewrite upd_same. simpl.
  destruct (timeout (views w self)) as [t |]; simpl.
  - destruct (truthy t); simpl; rewrite ?upd_same; simpl;
      rewrite ?upd_same; done.
  - rewrite upd_same. done.
Qed.

(** C1 (as the code has it): [add_view] never raises.  Every dispatchable
    child of the view ends up registered under its key, with the view and
    the view's new expiry, whether or not the store held that key before:
    an entry already there is overwritten, and the entry names the last
    dispatchable child carrying the key (the one with no dispatchable child
    of that key after it).  Keys of no dispatchable child keep the entry the
    sweep left them. *)
Theorem add_view_overwrites `{C : Collaborators} (now_sweep now : float)
    (w : World) (view : ref) (message_id : option Z) :
  (add_view now_sweep now w view message_id).2 = Returns tt
  /\ (forall item,
        item ∈ children (views w view) ->
        is_dispatchable (items w item) = true ->
        exists item',
          item' ∈ children (views w view)
          /\ is_dispatchable (items w item') = true
          /\ item_key (items w item') = item_key (items w item)
          /\ _views (store (add_view now_sweep now w view message_id).1)
               !! item_key (items w item)
             = Some (view, item', _expires_at now (views w view)))
  /\ (forall before item after,
        children (views w view) = before ++ item :: after ->
        is_dispatchable (items w item) = true ->
        (forall x, x ∈ after -> is_dispatchable (items w x) = true ->
                   item_key (items w x) <> item_key (items w item)) ->
        _views (store (add_view now_sweep now w view message_id).1)
          !! item_key (items w item)
        = Some (view, item, _expires_at now (views w view)))
  /\ (forall k,
        (forall item, item ∈ children (views w view) ->
                      is_dispatchable (items w item) = true ->
                      item_key (items w item) <> k) ->
        _views (store (add_view now_sweep now w view message_id).1) !! k
        = _views (store (__verify_integrity now_sweep w)) !! k).
Proof.
  set (w1 := __verify_integrity now_sweep w).
  assert (Hw : forall m,
             _views (store (add_view now_sweep now w view m).1)
             = fold_left (register view (_expires_at now (views w view)) (items w))
                         (children (views w view)) (_views (store w1))).
  { intros m. unfold add_view. fold w1.
    destruct (start_listening_rest w1 view) as (Hi & Hs & Hc).
    rewrite add_view_loop, Hi, Hs, Hc.
    destruct m; reflexivity. }
  split; [| split; [| split]].
  - unfold add_view. destruct message_id; reflexivity.
  - intros item Hin Hd. rewrite Hw.
    apply register_fold_hit. by exists item.
  - intros before item after Hc Hd Hafter. rewrite Hw, Hc.
    by apply register_fold_last.
  - intros k Hk. rewrite Hw. by apply register_fold_miss.
Qed.

Lemma add_view_overwrites_witness :
  (* view 4 holds items 10 and 20 under one key, which view 1 has registered *)
  (children (views world1 4) = [10] ++ 20 :: []
   /\ is_dispatchable (C := sample) (items world1 20) = true
   /\ item_key (C := sample) (items world1 10)
      = item_key (C := sample) (items world1 20)
   /\ _views (store world1) !! item_key (C := sample) (items world1 20)
        = Some (1, 10, Some 180%float))
  /\ _views (store (add_view (C := sample) 5 5 world1 4 None).1)
       !! item_key (C := sample) (items world1 20)
     = Some (4, 20, _expires_at 5 (views world1 4)).
Proof.
  split.
  - split; [reflexivity |]. split; [reflexivity |]. split; [reflexivity |].
    vm_compute. reflexivity.
  - destruct (add_view_overwrites (C := sample) 5 5 world1 4 None)
      as (_ & _ & H & _).
    apply (H [10] 20 []); [reflexivity | reflexivity |].
    intros x Hx. by apply elem_of_nil in Hx.
Defined.

Lemma add_view_collision_counterexample :
  _views (store world1) !! (3%Z, Some "a"%string) = Some (1, 10, Some 180%float)
  /\ (add_view (C := sample) 5 5 world1 2 None).2 = Returns tt
  /\ _views (store (add_view (C := sample) 5 5 world1 2 None).1)
       !! (3%Z, Some "a"%string) = Some (2, 20, None)
  /\ ~ add_view_rejects_collision (C := sample) 5 5 world1 2 None.
Proof.
  split; [vm_compute; reflexivity |].
  split; [reflexivity |].
  split; [vm_compute; reflexivity |].
  intros H. destruct H as (e & He & _).
  - exists 20. split; [vm_compute; left |].
    split; [reflexivity |]. vm_compute. eexists. reflexivity.
  - discriminate He.
Qed.

(** ** Dispatch *)

(** The expiry is the rounded sum: at a reading of 2^53 a timeout of one
    second is absorbed, and a timeout of zero of either sign gives no
    expiry. *)
Lemma expires_at_rounds :
  _expires_at 9007199254740992 (form (Some 1%float) [] "")
  = Some 9007199254740992%float
  /\ _expires_at 5 (form (Some (-0)%float) [] "") = None.
Proof. split; reflexivity. Qed.

(** C2 (as the code has it): a dispatch that finds a live entry stores the
    expiry [view._expires_at]: the float sum [now + T] for a view whose
    timeout [T] is truthy (not zero), and no expiry at all for a view whose
    timeout is [None] or zero; it refreshes the item's state and hands one
    task to the loop.  A dispatch to an entry whose expiry has passed
    ([expiry <= now_sweep]) finds it swept and does what a miss does:
    nothing beyond the sweep, the item is not refreshed and no task is
    created. *)
Theorem dispatch_sliding_expiration `{C : Collaborators} (now_sweep now : float)
    (w : World) (component_type : Z) (custom_id : string)
    (interaction : Interaction) :
  let k := (component_type, Some custom_id) in
  let w' := dispatch now_sweep now w component_type custom_id interaction in
  (forall view item e,
     _views (store w) !! k = Some (view, item, e) ->
     (forall expiry, e = Some expiry -> (expiry <=? now_sweep)%float = false) ->
     (forall T, timeout (views w view) = Some T -> truthy T = true ->
        _views (store w') !! k = Some (view, item, Some (now + T)%float))
     /\ (timeout (views w view) = None
         \/ (exists T, timeout (views w view) = Some T /\ truthy T = false) ->
         _views (store w') !! k = Some (view, item, None))
     /\ items w' item = refresh_state interaction (items w item)
     /\ tasks w' = tasks w ++ [asyncio.scheduled_task view item interaction])
  /\ (forall view item expiry,
        _views (store w) !! k = Some (view, item, Some expiry) ->
        (expiry <=? now_sweep)%float = true ->
        w' = __verify_integrity now_sweep w
        /\ _views (store w') !! k = None
        /\ items w' = items w /\ tasks w' = tasks w)
  /\ (_views (store w) !! k = None ->
        w' = __verify_integrity now_sweep w
        /\ _views (store w') !! k = None
        /\ items w' = items w /\ tasks w' = tasks w).
Proof.
  intros k w'. subst w'. unfold dispatch. fold k.
  pose proof (verify_integrity_lookup now_sweep w k) as Hk.
  split; [| split].
  - intros view item e He Hlive. rewrite He in Hk.
    assert (expired now_sweep (view, item, e) = false) as Hx.
    { unfold expired. simpl. destruct e as [x |]; [| done]. by apply Hlive. }
    rewrite Hx in Hk. rewrite Hk. simpl.
    rewrite lookup_insert_eq, upd_same. unfold _expires_at.
    repeat split.
    + intros T -> HT. by rewrite HT.
    + intros [-> | (T & -> & ->)]; done.
  - intros view item expiry He Hle. rewrite He in Hk.
    assert (expired now_sweep (view, item, Some expiry) = true) as Hx
      by (unfold expired; simpl; done).
    rewrite Hx in Hk. rewrite Hk. done.
  - intros He. rewrite He in Hk. rewrite Hk. done.
Qed.

Lemma dispatch_sliding_expiration_witness :
  (* a live entry of view 1, whose timeout is 180 *)
  (_views (store world1) !! (3%Z, Some "a"%string) = Some (1, 10, Some 180%float)
   /\ timeout (views world1 1) = Some 180%float
   /\ _views (store (dispatch (C := sample) 10 11 world1 3 "a" (click (Some ["x"]))))
        !! (3%Z, Some "a"%string) = Some (1, 10, Some (11 + 180)%float))
  (* the same entry, expired *)
  /\ (dispatch (C := sample) 180 181 world1 3 "a" (click (Some ["x"]))
      = __verify_integrity 180 world1)
  (* a miss *)
  /\ (_views (store world1) !! (3%Z, Some "q"%string) = None
      /\ dispatch (C := sample) 10 11 world1 3 "q" (click (Some ["x"]))
         = __verify_integrity 10 world1).
Proof.
  assert (Ha : _views (store world1) !! (3%Z, Some "a"%string)
               = Some (1, 10, Some 180%float)) by (vm_compute; reflexivity).
  assert (Hq : _views (store world1) !! (3%Z, Some "q"%string) = None)
    by (vm_compute; reflexivity).
  split; [| split].
  - split; [exact Ha |]. split; [reflexivity |].
    destruct (dispatch_sliding_expiration (C := sample) 10 11 world1 3 "a"
                (click (Some ["x"]))) as (Hhit & _ & _).
    destruct (Hhit 1 10 (Some 180%float) Ha) as (HT & _).
    + intros expiry [= <-]. reflexivity.
    + apply (HT 180%float); reflexivity.
  - destruct (dispatch_sliding_expiration (C := sample) 180 181 world1 3 "a"
                (click (Some ["x"]))) as (_ & Hexp & _).
    destruct (Hexp 1 10 180%float Ha) as (Hw & _); [reflexivity | exact Hw].
  - split; [exact Hq |].
    destruct (dispatch_sliding_expiration (C := sample) 10 11 world1 3 "q"
                (click (Some ["x"]))) as (_ & _ & Hmiss).
    destruct (Hmiss Hq) as (Hw & _). exact Hw.
Defined.

Lemma dispatch_zero_timeout_counterexample :
  _views (store world2) !! (3%Z, Some "a"%string) = Some (2, 20, None)
  /\ timeout (views world2 2) = Some 0%float
  /\ _views (store (dispatch (C := sample) 5 5 world2 3 "a" (click None)))
       !! (3%Z, Some "a"%string) = Some (2, 20, None)
  /\ ~ dispatch_slides_expiry (C := sample) 5 5 world2 3 "a" (click None).
Proof.
  split; [vm_compute; reflexivity |].
  split; [reflexivity |].
  split; [vm_compute; reflexivity |].
  intros H.
  specialize (H 2 20 None 0%float).
  assert (Hk : _views (store (__verify_integrity 5 world2))
               !! (3%Z, Some "a"%string) = Some (2, 20, None))
    by (vm_compute; reflexivity).
  specialize (H Hk eq_refl). vm_compute in H. discriminate H.
Qed.

(** ** Teardown *)

Section Teardown.
Context `{C : Collaborators}.

Lemma pop_items_rest (cs : list ref) (w : World) :
  items (pop_items w cs).1 = items w
  /\ views (pop_items w cs).1 = views w
  /\ _synced_message_views (store (pop_items w cs).1)
       = _synced_message_views (store w).
Proof.
  revert w. induction cs as [| x cs IH]; intros w; simpl; [done |].
  destruct (is_dispatchable (items w x)); [| apply IH].
  destruct (_views (store w) !! item_key (items w x)); [| done].
  destruct (IH (set__views (delete (item_key (items w x)) (_views (store w))) w))
    as (-> & -> & ->). done.
Qed.

Lemma pop_items_absent_stays (cs : list ref) (w : World) (k : Key) :
  _views (store w) !! k = None ->
  _views (store (pop_items w cs).1) !! k = None.
Proof.
  revert w. induction cs as [| x cs IH]; intros w Hk; simpl; [done |].
  destruct (is_dispatchable (items w x)); [| by apply IH].
  destruct (_views (store w) !! item_key (items w x)); [| done].
  apply IH. simpl. apply lookup_delete_None. by right.
Qed.

Lemma pop_items_returns_absent (cs : list ref) (w : World) (item : ref) :
  (pop_items w cs).2 = Returns tt ->
  item ∈ cs -> is_dispatchable (items w item) = true ->
  _views (store (pop_items w cs).1) !! item_key (items w item) = None.
Proof.
  revert w. induction cs as [| x cs IH]; intros w Hr Hin Hd.
  - by apply elem_of_nil in Hin.
  - simpl in *.
    destruct (is_dispatchable (items w x)) eqn:Hx.
    + destruct (_views (store w) !! item_key (items w x)) eqn:Hl; [| done].
      set (w1 := set__views (delete (item_key (items w x)) (_views (store w))) w) in *.
      destruct (decide (item_key (items w item) = item_key (items w x))) as [Heq | Hne].
      * apply pop_items_absent_stays. simpl. rewrite Heq. apply lookup_delete_eq.
      * apply elem_of_cons in Hin as [-> | Hin]; [done |].
        by apply (IH w1).
    + apply elem_of_cons in Hin as [-> | Hin]; [congruence |].
      by apply IH.
Qed.

Lemma pop_items_missing_raises (cs : list ref) (w : World) (item : ref) :
  item ∈ cs -> is_dispatchable (items w item) = true ->
  _views (store w) !! item_key (items w item) = None ->
  (pop_items w cs).2 = Raises KeyError.
Proof.
  revert w. induction cs as [| x cs IH]; intros w Hin Hd Hk.
  - by apply elem_of_nil in Hin.
  - simpl.
    destruct (is_dispatchable (items w x)) eqn:Hx.
    + destruct (_views (store w) !! item_key (items w x)) eqn:Hl; [| done].
      apply elem_of_cons in Hin as [-> | Hin]; [congruence |].
      apply IH; [done | done |]. simpl. apply lookup_delete_None. by right.
    + apply elem_of_cons in Hin as [-> | Hin]; [congruence |]. by apply IH.
Qed.

Lemma pop_items_all_absent (cs : list ref) (w : World) (item : ref) :
  item ∈ cs -> is_dispatchable (items w item) = true ->
  (forall x, x ∈ cs -> is_dispatchable (items w x) = true ->
             _views (store w) !! item_key (items w x) = None) ->
  pop_items w cs = (w, Raises KeyError).
Proof.
  induction cs as [| x cs IH]; intros Hin Hd Hall.
  - by apply elem_of_nil in Hin.
  - simpl. destruct (is_dispatchable (items w x)) eqn:Hx.
    + rewrite (Hall x); [done | by left | done].
    + apply elem_of_cons in Hin as [-> | Hin]; [congruence |].
      apply IH; [done | done |]. intros y Hy. apply Hall. by right.
Qed.

Lemma remove_view_rest (w : World) (view : ref) :
  items (remove_view w view).1 = items w
  /\ views (remove_view w view).1 = views w.
Proof.
  unfold remove_view.
  pose proof (pop_items_rest (children (views w view)) w) as (Hi & Hv & _).
  destruct (pop_items w (children (views w view))) as [w1 [[] | e]]; done.
Qed.

Lemma stop_when_done (w : World) (self : ref) (r : bool) :
  _stopped (views w self) = asyncio.Done r ->
  stop w self = (w, Raises InvalidStateError).
Proof. unfold stop. by intros ->. Qed.

Lemma stop_marks_done (w : World) (self : ref) :
  exists r, _stopped (views (stop w self).1 self) = asyncio.Done r.
Proof.
  unfold stop. destruct (_stopped (views w self)) as [| r] eqn:Hs.
  - change (asyncio.set_result false asyncio.Pending)
      with (Returns (asyncio.Done false)).
    cbv beta iota zeta.
    set (w1 := set_view self (with_stopped (asyncio.Done false) (views w self)) w).
    assert (H1 : _stopped (views w1 self) = asyncio.Done false)
      by (subst w1; simpl; by rewrite upd_same).
    set (w2 := match _timeout_handler (views w1 self) with
               | Some h => set_timers (alter asyncio.cancel h (timers w1)) w1
               | None => w1
               end).
    assert (H2 : views w2 = views w1)
      by (subst w2; by destruct (_timeout_handler (views w1 self))).
    exists false.
    destruct (_cancel_callback (views w2 self)) as [[] |].
    + destruct (remove_view_rest w2 self) as (_ & ->). by rewrite H2.
    + cbn [fst]. by rewrite H2.
  - by exists r.
Qed.

End Teardown.

(** C3 (as the code has it): teardown is not idempotent.  [remove_view]
    raises [KeyError] as soon as a dispatchable child of the view has no
    entry in the store; so after a [remove_view] that returned, a second one
    on a view with a dispatchable child raises [KeyError], the store staying
    as the first call left it.  A second [stop] raises [InvalidStateError]
    (from [set_result] on the resolved future) before anything is touched. *)
Theorem teardown_second_call_raises `{C : Collaborators} (w : World) (view : ref) :
  (forall item,
     item ∈ children (views w view) ->
     is_dispatchable (items w item) = true ->
     _views (store w) !! item_key (items w item) = None ->
     (remove_view w view).2 = Raises KeyError)
  /\ (forall item,
        item ∈ children (views w view) ->
        is_dispatchable (items w item) = true ->
        (remove_view w view).2 = Returns tt ->
        remove_view (remove_view w view).1 view
        = ((remove_view w view).1, Raises KeyError))
  /\ stop (stop w view).1 view = ((stop w view).1, Raises InvalidStateError).
Proof.
  split; [| split].
  - intros item Hin Hd Hk. unfold remove_view.
    pose proof (pop_items_missing_raises _ w item Hin Hd Hk) as Hp.
    destruct (pop_items w (children (views w view))) as [w1 [[] | e]];
      simpl in *; congruence.
  - intros item Hin Hd Hr.
    destruct (remove_view_rest w view) as (Hi & Hv).
    set (w1 := (remove_view w view).1) in *.
    assert (Habs : forall x, x ∈ children (views w view) ->
                     is_dispatchable (items w x) = true ->
                     _views (store w1) !! item_key (items w x) = None).
    { intros x Hx Hdx. subst w1. unfold remove_view in *.
      pose proof (pop_items_returns_absent (children (views w view)) w x) as Hp.
      destruct (pop_items w (children (views w view))) as [w2 [[] | e]];
        simpl in *; [by apply Hp | done]. }
    unfold remove_view at 1. rewrite Hv.
    rewrite (pop_items_all_absent (children (views w view)) w1 item);
      [done | done | by rewrite Hi |].
    intros x Hx. rewrite Hi. by apply Habs.
  - destruct (stop_marks_done w view) as (r & Hr).
    by apply (stop_when_done _ _ r).
Qed.

Lemma teardown_second_call_raises_witness :
  (10 ∈ children (views world1 1)
   /\ is_dispatchable (C := sample) (items world1 10) = true
   /\ (remove_view (C := sample) world1 1).2 = Returns tt)
  /\ remove_view (C := sample) (remove_view (C := sample) world1 1).1 1
     = ((remove_view (C := sample) world1 1).1, Raises KeyError).
Proof.
  assert (H10 : 10 ∈ children (views world1 1)) by (vm_compute; left).
  assert (Hr : (remove_view (C := sample) world1 1).2 = Returns tt)
    by (vm_compute; reflexivity).
  split; [split; [exact H10 | split; [reflexivity | exact Hr]] |].
  destruct (teardown_second_call_raises (C := sample) world1 1) as (_ & H & _).
  apply (H 10 H10); [reflexivity | exact Hr].
Defined.

Lemma teardown_twice_counterexample :
  (remove_view (C := sample) world1 1).2 = Returns tt
  /\ (remove_view (C := sample) (remove_view (C := sample) world1 1).1 1).2
     = Raises KeyError
  /\ (stop (C := sample) world1 1).2 = Returns tt
  /\ (stop (C := sample) (stop (C := sample) world1 1).1 1).2
     = Raises InvalidStateError
  /\ ~ teardown_idempotent (C := sample) world1 1.
Proof.
  split; [vm_compute; reflexivity |].
  split; [vm_compute; reflexivity |].
  split; [vm_compute; reflexivity |].
  split; [vm_compute; reflexivity |].
  intros ((Hr & _) & _). vm_compute in Hr. discriminate Hr.
Qed.

(** ** Reconciliation *)

Section Refresh.
Context `{C : Collaborators}.

Lemma old_state_fold_miss (its : ref -> Item) (l : list ref)
    (m : gmap Key ref) (k : Key) :
  (forall x, x ∈ l -> is_dispatchable (its x) = true -> item_key (its x) <> k) ->
  fold_left (fun d item =>
               if is_dispatchable (its item)
               then <[item_key (its item) := item]> d else d) l m !! k
  = m !! k.
Proof.
  revert m. induction l as [| x l IH]; intros m H; [done |].
  simpl. rewrite IH.
  - destruct (is_dispatchable (its x)) eqn:Hx; [| done].
    apply lookup_insert_ne. apply H; [left | done].
  - intros y Hy. apply H. by right.
Qed.

(** [old_state] holds, under a key, the last dispatchable child with it. *)
Lemma old_state_last (w : World) (self : ref) (before after : list ref) (E : ref) :
  children (views w self) = before ++ E :: after ->
  is_dispatchable (items w E) = true ->
  (forall x, x ∈ after -> is_dispatchable (items w x) = true ->
             item_key (items w x) <> item_key (items w E)) ->
  old_state w self !! item_key (items w E) = Some E.
Proof.
  intros Hc Hd Hafter. unfold old_state. rewrite Hc, fold_left_app. simpl.
  rewrite Hd, old_state_fold_miss by done. apply lookup_insert_eq.
Qed.

Lemma lookup_older_hit (old : gmap Key ref) (d : ComponentData) (k : Key) (E : ref) :
  component_key (components.Leaf d) = Some (k, d) ->
  old !! k = Some E ->
  lookup_older old (components.Leaf d) = Some (E, d).
Proof. unfold lookup_older. by intros -> ->. Qed.

(** What the loop of [refresh] builds: one reference per component, the
    older item on a hit and a newly allocated one otherwise; it writes to
    items only. *)
Lemma refresh_loop_spec (old : gmap Key ref) (comps : list Component) :
  forall (w : World) (acc : list ref),
    views (refresh_loop old comps w acc).1 = views w
    /\ store (refresh_loop old comps w acc).1 = store w
    /\ next_item w <= next_item (refresh_loop old comps w acc).1
    /\ exists new,
         (refresh_loop old comps w acc).2 = acc ++ new
         /\ length new = length comps
         /\ forall i c, comps !! i = Some c ->
              match lookup_older old c with
              | Some (older, _) => new !! i = Some older
              | None => exists r, new !! i = Some r
                          /\ next_item w <= r
                          /\ r < next_item (refresh_loop old comps w acc).1
              end.
Proof.
  induction comps as [| c rest IH]; intros w acc; simpl.
  - repeat split; [lia |]. exists []. rewrite app_nil_r.
    repeat split. intros i c Hi. by rewrite lookup_nil in Hi.
  - destruct (lookup_older old c) as [[older d] |] eqn:Hc.
    + set (w1 := set_item older (refresh_component d (items w older)) w).
      destruct (IH w1 (acc ++ [older])) as (Hv & Hs & Hn & new & Hnew & Hlen & Hall).
      repeat split; [done | done | done |].
      exists (older :: new). rewrite Hnew, <- app_assoc. simpl.
      repeat split; [by rewrite Hlen |].
      intros [| i] c' Hi; simpl in Hi.
      * injection Hi as <-. by rewrite Hc.
      * apply (Hall i c' Hi).
    + unfold new_item.
      set (w1 := {| items := upd (items w) (next_item w) (_component_to_item c);
                    next_item := S (next_item w); views := views w;
                    timers := timers w; tasks := tasks w; store := store w |}).
      destruct (IH w1 (acc ++ [next_item w]))
        as (Hv & Hs & Hn & new & Hnew & Hlen & Hall).
      simpl in Hn.
      repeat split; [done | done | lia |].
      exists (next_item w :: new). rewrite Hnew, <- app_assoc. simpl.
      repeat split; [by rewrite Hlen |].
      intros [| i] c' Hi; simpl in Hi.
      * injection Hi as <-. rewrite Hc. exists (next_item w).
        repeat split; [lia | lia].
      * specialize (Hall i c' Hi). destruct (lookup_older old c') as [[o ?] |]; [done |].
        destruct Hall as (r & Hr & Hlo & Hhi). exists r. simpl in Hlo.
        repeat split; [done | lia | done].
Qed.

(** An allocated select menu keeps its callback, its selected values and
    its group through the loop, however often it is refreshed. *)
Lemma refresh_loop_keeps_select (old : gmap Key ref) (comps : list Component)
    (E : ref) :
  forall (w : World) (acc : list ref),
    E < next_item w ->
    item_class (items w E) = SelectItem ->
    item_class (items (refresh_loop old comps w acc).1 E) = SelectItem
    /\ callback (items (refresh_loop old comps w acc).1 E) = callback (items w E)
    /\ _selected_values (items (refresh_loop old comps w acc).1 E)
         = _selected_values (items w E)
    /\ group_id (items (refresh_loop old comps w acc).1 E) = group_id (items w E).
Proof.
  induction comps as [| c rest IH]; intros w acc Hlt Hcls; simpl; [done |].
  destruct (lookup_older old c) as [[older d] |].
  - set (w1 := set_item older (refresh_component d (items w older)) w).
    assert (H1 : item_class (items w1 E) = SelectItem
                 /\ callback (items w1 E) = callback (items w E)
                 /\ _selected_values (items w1 E) = _selected_values (items w E)
                 /\ group_id (items w1 E) = group_id (items w E)).
    { subst w1. simpl. destruct (decide (E = older)) as [<- | Hne].
      - rewrite upd_same. unfold refresh_component. rewrite Hcls. done.
      - rewrite upd_other by done. done. }
    destruct H1 as (Hc1 & <- & <- & <-). by apply IH.
  - unfold new_item.
    set (w1 := {| items := upd (items w) (next_item w) (_component_to_item c);
                  next_item := S (next_item w); views := views w;
                  timers := timers w; tasks := tasks w; store := store w |}).
    assert (H1 : items w1 E = items w E)
      by (subst w1; simpl; apply upd_other; lia).
    rewrite <- H1. apply IH; [simpl; lia | by rewrite H1].
Qed.

End Refresh.

(** C4 (as the code has it): [refresh] keeps, for a key, the element its
    lookup table holds: the last dispatchable child of the view with that
    key ([E], with no dispatchable child of the same key after it).  Every
    component carrying the key of [E] yields the very reference [E] at its
    position; a select menu [E] keeps its callback and its selected values;
    a component with no match in the table yields a newly allocated item;
    and the view changes by the single assignment of the new list, the loop
    writing to items only and the store staying untouched. *)
Theorem refresh_preserves_identity `{C : Collaborators} (w : World) (self : ref)
    (comps : list Component) (before after : list ref) (E : ref) :
  children (views w self) = before ++ E :: after ->
  is_dispatchable (items w E) = true ->
  (forall x, x ∈ after -> is_dispatchable (items w x) = true ->
             item_key (items w x) <> item_key (items w E)) ->
  let w' := refresh w self comps in
  let flat := _walk_all_components comps in
  length (children (views w' self)) = length flat
  /\ (forall i d,
        flat !! i = Some (components.Leaf d) ->
        component_key (components.Leaf d) = Some (item_key (items w E), d) ->
        children (views w' self) !! i = Some E)
  /\ (E < next_item w -> item_class (items w E) = SelectItem ->
        callback (items w' E) = callback (items w E)
        /\ _selected_values (items w' E) = _selected_values (items w E))
  /\ (forall i c,
        flat !! i = Some c ->
        lookup_older (old_state w self) c = None ->
        exists r, children (views w' self) !! i = Some r
                  /\ next_item w <= r /\ r < next_item w')
  /\ views w' = upd (views w) self
                    (with_children (children (views w' self)) (views w self))
  /\ store w' = store w.
Proof.
  intros Hc Hd Hafter w' flat.
  pose proof (old_state_last w self before after E Hc Hd Hafter) as Hold.
  subst w'. unfold refresh. fold flat.
  destruct (refresh_loop_spec (old_state w self) flat w [])
    as (Hv & Hs & Hn & new & Hnew & Hlen & Hall).
  pose proof (refresh_loop_keeps_select (old_state w self) flat E w []) as Hkeep.
  destruct (refresh_loop (old_state w self) flat w []) as [w1 cs] eqn:Hloop.
  simpl in *. rewrite upd_same. simpl. subst cs.
  split; [done |]. split; [| split; [| split; [| split]]].
  - intros i d Hi Hk. specialize (Hall i _ Hi).
    by rewrite (lookup_older_hit _ _ _ _ Hk Hold) in Hall.
  - intros Hlt Hcls. destruct (Hkeep Hlt Hcls) as (_ & ? & ? & _). done.
  - intros i c Hi Hmiss. specialize (Hall i _ Hi). by rewrite Hmiss in Hall.
  - by rewrite Hv.
  - done.
Qed.

Lemma refresh_preserves_identity_witness :
  (children (views world0 1) = [] ++ 10 :: [11]
   /\ is_dispatchable (C := sample) (items world0 10) = true
   /\ item_key (C := sample) (items world0 11)
        <> item_key (C := sample) (items world0 10)
   /\ component_key (components.Leaf (menu_component "a"))
        = Some (item_key (C := sample) (items world0 10), menu_component "a"))
  /\ children (views
       (refresh (C := sample) world0 1
          [components.ActionRowComponent
             [components.Leaf (menu_component "c");
              components.Leaf (menu_component "a")]]) 1) !! 1
     = Some 10.
Proof.
  split.
  - split; [reflexivity |]. split; [reflexivity |]. split; [| reflexivity].
    vm_compute. discriminate.
  - destruct (refresh_preserves_identity (C := sample) world0 1
                [components.ActionRowComponent
                   [components.Leaf (menu_component "c");
                    components.Leaf (menu_component "a")]] [] [11] 10)
      as (_ & H & _).
    + reflexivity.
    + reflexivity.
    + intros x Hx _. apply list_elem_of_singleton in Hx as ->.
      vm_compute. discriminate.
    + apply (H 1 (menu_component "a")); reflexivity.
Defined.

Lemma refresh_shadowed_element_counterexample :
  children (views world0 4) = [10; 20]
  /\ item_key (C := sample) (items world0 10)
     = item_key (C := sample) (items world0 20)
  /\ children (views (refresh (C := sample) world0 4
                        [components.Leaf (menu_component "a")]) 4) = [20]
  /\ ~ refresh_keeps_every_element (C := sample) world0 4
         [components.Leaf (menu_component "a")].
Proof.
  split; [reflexivity |]. split; [reflexivity |].
  split; [vm_compute; reflexivity |].
  intros H. specialize (H 10 0 (menu_component "a")).
  assert (H10 : 10 ∈ children (views world0 4)) by (vm_compute; left).
  specialize (H H10 eq_refl eq_refl eq_refl).
  vm_compute in H. discriminate H.
Qed.

(** ** Layout *)

Section Sorting.
Context {A : Type} (key : A -> Z).

Local Abbreviation le_key := (fun x y : A => (key x <= key y)%Z).
Local Abbreviation has_key k := (fun x : A => key x = k).

Lemma insert_stable_perm (x : A) (l : list A) : insert_stable key x l ≡ₚ x :: l.
Proof.
  induction l as [| y l IH]; simpl; [done |].
  destruct (key x <=? key y)%Z; [done |].
  rewrite IH. apply Permutation_swap.
Qed.

Lemma sorted_perm (l : list A) : sorted key l ≡ₚ l.
Proof.
  induction l as [| x l IH]; simpl; [done |].
  by rewrite insert_stable_perm, IH.
Qed.

Lemma insert_stable_sorted (x : A) (l : list A) :
  StronglySorted le_key l -> StronglySorted le_key (insert_stable key x l).
Proof.
  induction 1 as [| y l Hs IH Hy]; simpl.
  - repeat constructor.
  - destruct (Z.leb_spec (key x) (key y)) as [Hle | Hgt].
    + constructor; [by constructor |].
      constructor; [done |].
      eapply Forall_impl; [exact Hy |]. simpl. intros z Hz. lia.
    + constructor; [done |].
      rewrite insert_stable_perm. constructor; [lia | done].
Qed.

Lemma sorted_sorted (l : list A) : StronglySorted le_key (sorted key l).
Proof.
  induction l as [| x l IH]; simpl; [constructor |].
  by apply insert_stable_sorted.
Qed.

Lemma insert_stable_first (x : A) (l : list A) :
  Forall (fun y => (key x <= key y)%Z) l -> insert_stable key x l = x :: l.
Proof.
  destruct 1 as [| y l Hy _]; simpl; [done |].
  by destruct (Z.leb_spec (key x) (key y)); [| lia].
Qed.

(** Stability: elements that share a key keep their order. *)
Lemma insert_stable_filter (P : A -> Prop) `{!forall x, Decision (P x)}
    (x : A) (l : list A) :
  (forall y z, P y -> P z -> key y = key z) ->
  filter P (insert_stable key x l) = filter P (x :: l).
Proof.
  intros HP. induction l as [| y l IH]; simpl; [done |].
  destruct (Z.leb_spec (key x) (key y)) as [Hle | Hgt]; [done |].
  rewrite (filter_cons _ y), IH, !(filter_cons _ x), !(filter_cons _ y).
  destruct (decide (P x)) as [Hx |], (decide (P y)) as [Hy |]; try done.
  specialize (HP x y Hx Hy). lia.
Qed.

Lemma sorted_stable (P : A -> Prop) `{!forall x, Decision (P x)} (l : list A) :
  (forall y z, P y -> P z -> key y = key z) ->
  filter P (sorted key l) = filter P l.
Proof.
  intros HP. induction l as [| x l IH]; simpl; [done |].
  by rewrite insert_stable_filter, !(filter_cons _ x), IH.
Qed.

Lemma sorted_one_key (a : Z) (l : list A) :
  Forall (has_key a) l -> sorted key l = l.
Proof.
  induction 1 as [| x l Hx Hl IH]; simpl; [done |].
  rewrite IH. apply insert_stable_first.
  eapply Forall_impl; [exact Hl |]. simpl. intros y ->. lia.
Qed.

Lemma StronglySorted_lookup (R : A -> A -> Prop) (l : list A) :
  StronglySorted R l ->
  forall i j x y, i < j -> l !! i = Some x -> l !! j = Some y -> R x y.
Proof.
  induction 1 as [| z l Hs IH Hz]; intros i j x y Hij Hi Hj.
  - by rewrite lookup_nil in Hi.
  - destruct j as [| j]; [lia |]. simpl in Hj.
    destruct i as [| i]; simpl in Hi.
    + injection Hi as ->. rewrite Forall_forall in Hz. apply Hz.
      eapply list_elem_of_lookup_2. exact Hj.
    + apply (IH i j); [lia | done | done].
Qed.

Lemma insert_stable_app (x : A) (l1 l2 : list A) :
  Forall (fun y => (key y < key x)%Z) l1 ->
  insert_stable key x (l1 ++ l2) = l1 ++ insert_stable key x l2.
Proof.
  induction 1 as [| y l1 Hy _ IH]; simpl; [done |].
  destruct (Z.leb_spec (key x) (key y)); [lia |]. by rewrite IH.
Qed.

(** With two keys in use, sorting puts the elements of the smaller key,
    in their order, before those of the larger, in theirs. *)
Lemma sorted_two_keys (a b : Z) (l : list A) :
  (a < b)%Z ->
  Forall (fun x => key x = a \/ key x = b) l ->
  sorted key l = filter (has_key a) l ++ filter (has_key b) l.
Proof.
  intros Hab. induction 1 as [| x l Hx Hl IH]; simpl; [done |].
  rewrite IH.
  assert (Ha : Forall (has_key a) (filter (has_key a) l)).
  { apply Forall_forall. intros y Hy.
    by apply list_elem_of_filter in Hy as [? _]. }
  assert (Hb : Forall (has_key b) (filter (has_key b) l)).
  { apply Forall_forall. intros y Hy.
    by apply list_elem_of_filter in Hy as [? _]. }
  destruct Hx as [Hx | Hx].
  - rewrite insert_stable_first.
    + rewrite (filter_cons_True _ x) by done.
      rewrite (filter_cons_False _ x) by (simpl; lia). done.
    + apply Forall_app. split.
      * eapply Forall_impl; [exact Ha |]. simpl. intros y ->. lia.
      * eapply Forall_impl; [exact Hb |]. simpl. intros y ->. lia.
  - rewrite insert_stable_app.
    + rewrite insert_stable_first.
      * rewrite (filter_cons_False _ x) by (simpl; lia).
        rewrite (filter_cons_True _ x) by done. done.
      * eapply Forall_impl; [exact Hb |]. simpl. intros y ->. lia.
    + eapply Forall_impl; [exact Ha |]. simpl. intros y ->. lia.
Qed.

(** *** groupby *)

Lemma groupby_concat (l : list A) : concat (map snd (groupby key l)) = l.
Proof.
  induction l as [| x l IH]; simpl; [done |].
  destruct (groupby key l) as [| [k g] gs]; simpl in *.
  - by rewrite <- IH.
  - destruct (key x =? k)%Z; simpl; by rewrite <- IH.
Qed.

Lemma groupby_groups (l : list A) :
  Forall (fun kg : Z * list A => kg.2 <> [] /\ Forall (has_key kg.1) kg.2)
         (groupby key l).
Proof.
  induction l as [| x l IH]; simpl; [constructor |].
  destruct (groupby key l) as [| [k g] gs].
  - repeat constructor; done.
  - destruct (Z.eqb_spec (key x) k) as [Hk | Hk].
    + inversion IH as [| ? ? [Hne Hg] Hgs]; subst.
      constructor; [| done]. simpl in *. split; [done | by constructor].
    + constructor; [| done]. simpl. split; [done | by repeat constructor].
Qed.

Lemma groupby_run (a : Z) (l1 l2 : list A) :
  l1 <> [] -> Forall (has_key a) l1 ->
  match groupby key l2 with
  | [] => True
  | (k, _) :: _ => k <> a
  end ->
  groupby key (l1 ++ l2) = (a, l1) :: groupby key l2.
Proof.
  intros Hne Hall Hnext. induction Hall as [| x l1 Hx Hall IH]; [done |].
  simpl. destruct l1 as [| y l1].
  - simpl. destruct (groupby key l2) as [| [k g] gs]; [by rewrite Hx |].
    destruct (Z.eqb_spec (key x) k); [congruence | by rewrite Hx].
  - rewrite IH by done. destruct (Z.eqb_spec (key x) a); [done | congruence].
Qed.

End Sorting.

Section Chunks.
Context {A : Type}.

Lemma slice_five (index : nat) (l : list A) :
  slice index (index + 5) l = take 5 (drop index l).
Proof. unfold slice. f_equal. lia. Qed.

Lemma range_five_bound (n j : nat) : j < (n + 5 - 1) / 5 -> j * 5 < n.
Proof.
  intros Hj.
  pose proof (Nat.Div0.mul_div_le (n + 5 - 1) 5) as Hd. nia.
Qed.

Lemma range_five_cover (n : nat) : n <= (n + 5 - 1) / 5 * 5.
Proof.
  pose proof (Nat.Div0.div_mod (n + 5 - 1) 5) as Hd.
  pose proof (Nat.mod_upper_bound (n + 5 - 1) 5) as Hm. lia.
Qed.

Lemma take_five_steps (l : list A) (m : nat) :
  concat (map (fun index => slice index (index + 5) l)
              (map (fun j => j * 5) (seq 0 m)))
  = take (m * 5) l.
Proof.
  induction m as [| m IH]; [done |].
  rewrite seq_S, !map_app, concat_app, IH. simpl.
  rewrite app_nil_r, slice_five, take_take_drop. f_equal. lia.
Qed.

Lemma chunks_concat (g : list A) : concat (chunks g) = g.
Proof.
  unfold chunks. destruct (length g <=? 5); simpl.
  - apply app_nil_r.
  - unfold range. rewrite take_five_steps. apply take_ge, range_five_cover.
Qed.

Lemma chunks_sizes (g : list A) :
  g <> [] -> Forall (fun r => 1 <= length r <= 5) (chunks g).
Proof.
  intros Hne. unfold chunks.
  destruct (Nat.leb_spec (length g) 5) as [Hle | Hgt].
  - constructor; [| constructor]. destruct g; [done | simpl in *; lia].
  - unfold range. rewrite Forall_map, Forall_map. apply Forall_forall.
    intros j Hj%elem_of_seq. simpl.
    rewrite slice_five, length_take, length_drop.
    pose proof (range_five_bound (length g) j). lia.
Qed.

Lemma chunks_members (g r : list A) (x : A) : r ∈ chunks g -> x ∈ r -> x ∈ g.
Proof.
  unfold chunks. destruct (length g <=? 5).
  - intros ->%list_elem_of_singleton. done.
  - intros (index & -> & _)%list_elem_of_fmap Hx.
    unfold slice in Hx. apply elem_of_take in Hx as (i & Hi & _).
    rewrite lookup_drop in Hi. eapply list_elem_of_lookup_2. exact Hi.
Qed.

Lemma chunks_small (g : list A) : length g <= 5 -> chunks g = [g].
Proof.
  intros H. unfold chunks. by destruct (Nat.leb_spec (length g) 5); [| lia].
Qed.

Lemma chunks_twelve (g : list A) :
  length g = 12 -> chunks g = [take 5 g; take 5 (drop 5 g); drop 10 g].
Proof.
  intros H. do 12 (destruct g as [| ? g]; [done |]).
  destruct g; [reflexivity | done].
Qed.

End Chunks.

Lemma filter_pointwise {A : Type} (P Q : A -> Prop)
    `{!forall x, Decision (P x)} `{!forall x, Decision (Q x)} (l : list A) :
  Forall (fun x => P x <-> Q x) l -> filter P l = filter Q l.
Proof.
  induction 1 as [| x l Hx _ IH]; [done |].
  rewrite !filter_cons, IH.
  destruct (decide (P x)), (decide (Q x)); tauto.
Qed.

Section LayoutRows.
Context {A : Type} (key : A -> Z).

Lemma layout_concat (l : list A) : concat (layout key l) = sorted key l.
Proof.
  unfold layout. rewrite <- (groupby_concat key (sorted key l)) at 2.
  induction (groupby key (sorted key l)) as [| [k g] gs IH]; simpl; [done |].
  by rewrite concat_app, chunks_concat, IH.
Qed.

Lemma layout_sizes (l : list A) :
  Forall (fun r => 1 <= length r <= 5) (layout key l).
Proof.
  unfold layout. pose proof (groupby_groups key (sorted key l)) as H.
  induction H as [| [k g] gs [Hne _] _ IH]; simpl; [constructor |].
  apply Forall_app. split; [by apply chunks_sizes | done].
Qed.

Lemma layout_rows_one_key (l : list A) :
  Forall (fun r => forall x y, x ∈ r -> y ∈ r -> key x = key y) (layout key l).
Proof.
  unfold layout. pose proof (groupby_groups key (sorted key l)) as H.
  induction H as [| [k g] gs [_ Hg] _ IH]; simpl; [constructor |].
  apply Forall_app. split; [| done].
  apply Forall_forall. intros r Hr x y Hx Hy. simpl in *.
  rewrite Forall_forall in Hg.
  rewrite (Hg x), (Hg y); [done | |]; by eapply chunks_members.
Qed.

Lemma layout_member (l r : list A) (x : A) :
  r ∈ layout key l -> x ∈ r -> x ∈ l.
Proof.
  intros Hr Hx. rewrite <- (sorted_perm key l), <- layout_concat.
  apply list_elem_of_In, in_concat. exists r.
  split; by apply list_elem_of_In.
Qed.

Lemma layout_one_key (a : Z) (l : list A) :
  l <> [] -> Forall (fun x => key x = a) l -> layout key l = chunks l.
Proof.
  intros Hne Hl. unfold layout. rewrite (sorted_one_key key a) by done.
  rewrite <- (app_nil_r l) at 1.
  rewrite (groupby_run key a l []) by done. simpl. apply app_nil_r.
Qed.

Lemma layout_two_keys (a b : Z) (l : list A) :
  (a < b)%Z ->
  Forall (fun x => key x = a \/ key x = b) l ->
  filter (fun x => key x = a) l <> [] ->
  filter (fun x => key x = b) l <> [] ->
  layout key l = chunks (filter (fun x => key x = a) l)
                 ++ chunks (filter (fun x => key x = b) l).
Proof.
  intros Hab Hl Ha Hb. unfold layout.
  rewrite (sorted_two_keys key a b) by done.
  assert (Hfa : Forall (fun x => key x = a) (filter (fun x => key x = a) l)).
  { apply Forall_forall. intros y Hy. by apply list_elem_of_filter in Hy as [? _]. }
  assert (Hfb : Forall (fun x => key x = b) (filter (fun x => key x = b) l)).
  { apply Forall_forall. intros y Hy. by apply list_elem_of_filter in Hy as [? _]. }
  assert (Hgb : groupby key (filter (fun x => key x = b) l)
                = [(b, filter (fun x => key x = b) l)]).
  { rewrite <- (app_nil_r (filter _ l)) at 1.
    by rewrite (groupby_run key b _ []). }
  rewrite (groupby_run key a) by (rewrite ?Hgb; done || lia).
  rewrite Hgb. simpl. by rewrite app_nil_r.
Qed.

End LayoutRows.

Lemma to_components_layout `{C : Collaborators} (w : World) (self : ref) :
  to_components w self = map (row_of w) (layout (key w) (children (views w self))).
Proof.
  unfold to_components, layout.
  induction (groupby (key w) (sorted (key w) (children (views w self))))
    as [| [k g] gs IH]; simpl; [done |].
  rewrite map_app, IH. f_equal. unfold chunks.
  destruct (length g <=? 5); simpl; [done |]. by rewrite map_map.
Qed.

Lemma key_of_group (w : World) (x y : ref) :
  group_id (items w x) = group_id (items w y) -> key w x = key w y.
Proof. unfold key. by intros ->. Qed.

Lemma group_of_key (w : World) (x y : ref) :
  (forall g, group_id (items w x) = Some g -> (g < maxsize)%Z) ->
  (forall g, group_id (items w y) = Some g -> (g < maxsize)%Z) ->
  key w x = key w y -> group_id (items w x) = group_id (items w y).
Proof.
  unfold key. intros Hx Hy.
  destruct (group_id (items w x)) as [g |], (group_id (items w y)) as [g' |];
    intros H; subst; try done.
  - specialize (Hx _ eq_refl). lia.
  - specialize (Hy _ eq_refl). lia.
Qed.

(** C8: [to_components] returns rows of type 1, each carrying the payloads
    of between one and five children; read row after row the members are
    the children, rearranged so that the sort keys never decrease and the
    children of one group keep their insertion order.  When the group
    numbers used are below [sys.maxsize], every ungrouped child comes after
    every grouped one and no row mixes groups.  Twelve ungrouped children
    give three rows of five, five and two in insertion order; three children
    of group 1 and two ungrouped ones give the row of group 1 and then the
    row of the ungrouped. *)
Theorem to_components_rows `{C : Collaborators} (w : World) (self : ref) :
  let cs := children (views w self) in
  let group x := group_id (items w x) in
  let rows := layout (key w) cs in
  to_components w self = map (row_of w) rows
  /\ Forall (fun r => 1 <= length r <= 5) rows
  /\ concat rows ≡ₚ cs
  /\ (forall g, filter (fun x => group x = g) (concat rows)
                = filter (fun x => group x = g) cs)
  /\ (forall i j x y, i < j -> concat rows !! i = Some x ->
        concat rows !! j = Some y -> (key w x <= key w y)%Z)
  /\ ((forall x g, x ∈ cs -> group x = Some g -> (g < maxsize)%Z) ->
        (forall i j x y, concat rows !! i = Some x -> concat rows !! j = Some y ->
           group x = None -> is_Some (group y) -> j < i)
        /\ Forall (fun r => forall x y, x ∈ r -> y ∈ r -> group x = group y) rows)
  /\ (length cs = 12 -> Forall (fun x => group x = None) cs ->
        rows = [take 5 cs; take 5 (drop 5 cs); drop 10 cs])
  /\ (Forall (fun x => group x = Some 1%Z \/ group x = None) cs ->
      length (filter (fun x => group x = Some 1%Z) cs) = 3 ->
      length (filter (fun x => group x = None) cs) = 2 ->
        rows = [filter (fun x => group x = Some 1%Z) cs;
                filter (fun x => group x = None) cs]).
Proof.
  intros cs group rows.
  assert (Hflat : concat rows = sorted (key w) cs) by apply layout_concat.
  split; [apply to_components_layout |].
  split; [apply layout_sizes |].
  split; [rewrite Hflat; apply sorted_perm |].
  split; [| split; [| split; [| split]]].
  - intros g. rewrite Hflat. apply sorted_stable.
    intros y z Hy Hz. apply key_of_group. unfold group in *. congruence.
  - intros i j x y Hij Hi Hj. rewrite Hflat in Hi, Hj.
    exact (StronglySorted_lookup _ _ (sorted_sorted (key w) cs) i j x y Hij Hi Hj).
  - intros Hsmall. split.
    + intros i j x y Hi Hj Hx [g Hy].
      assert (Hyin : y ∈ cs).
      { rewrite <- (sorted_perm (key w) cs), <- Hflat.
        eapply list_elem_of_lookup_2. exact Hj. }
      assert (Hlt : (key w y < key w x)%Z).
      { unfold key. fold (group x) (group y). rewrite Hx, Hy.
        by apply (Hsmall y). }
      destruct (Nat.lt_trichotomy i j) as [Hij | [-> | Hji]]; [| | done].
      * rewrite Hflat in Hi, Hj.
        pose proof (StronglySorted_lookup _ _ (sorted_sorted (key w) cs)
                      i j x y Hij Hi Hj). simpl in *. lia.
      * rewrite Hi in Hj. injection Hj as ->. lia.
    + apply Forall_forall. intros r Hr x y Hx Hy.
      pose proof (layout_rows_one_key (key w) cs) as Hone.
      rewrite Forall_forall in Hone.
      apply group_of_key; [| | by apply (Hone r)].
      * intros g. apply Hsmall. by apply (layout_member (key w) cs r).
      * intros g. apply Hsmall. by apply (layout_member (key w) cs r).
  - intros Hlen Hnone. subst rows.
    rewrite (layout_one_key (key w) maxsize).
    + by apply chunks_twelve.
    + intros Hnil. by rewrite Hnil in Hlen.
    + eapply Forall_impl; [exact Hnone |]. simpl. intros x Hx.
      unfold key. fold (group x). by rewrite Hx.
  - intros Hgroups Hone Hnone. subst rows.
    assert (Hkeys : Forall (fun x => key w x = 1%Z \/ key w x = maxsize) cs).
    { eapply Forall_impl; [exact Hgroups |]. simpl. intros x Hx.
      unfold key. fold (group x). destruct Hx as [-> | ->]; [by left | by right]. }
    assert (Ha : filter (fun x => key w x = 1%Z) cs
                 = filter (fun x => group x = Some 1%Z) cs).
    { apply filter_pointwise. eapply Forall_impl; [exact Hgroups |]. simpl.
      intros x Hx. unfold key. fold (group x).
      destruct Hx as [-> | ->]; [done |]. split; [| done].
      intros H. by vm_compute in H. }
    assert (Hb : filter (fun x => key w x = maxsize) cs
                 = filter (fun x => group x = None) cs).
    { apply filter_pointwise. eapply Forall_impl; [exact Hgroups |]. simpl.
      intros x Hx. unfold key. fold (group x).
      destruct Hx as [-> | ->]; [| done]. split; [| done].
      intros H. by vm_compute in H. }
    rewrite (layout_two_keys (key w) 1 maxsize); [| done | done | |].
    + rewrite Ha, Hb, !chunks_small by lia. done.
    + rewrite Ha. intros Hnil. by rewrite Hnil in Hone.
    + rewrite Hb. intros Hnil. by rewrite Hnil in Hnone.
Qed.

Lemma to_components_rows_witness :
  (* twelve ungrouped children *)
  (length (children (views world0 5)) = 12
   /\ Forall (fun x => group_id (items world0 x) = None) (children (views world0 5))
   /\ to_components (C := sample) world0 5
      = map (row_of (C := sample) world0)
            [[60; 61; 62; 63; 64]; [65; 66; 67; 68; 69]; [70; 71]])
  (* three children of group 1 among two ungrouped ones *)
  /\ ((forall x g, x ∈ children (views world0 6) ->
         group_id (items world0 x) = Some g -> (g < maxsize)%Z)
      /\ length (filter (fun x => group_id (items world0 x) = Some 1%Z)
                        (children (views world0 6))) = 3
      /\ length (filter (fun x => group_id (items world0 x) = None)
                        (children (views world0 6))) = 2
      /\ to_components (C := sample) world0 6
         = map (row_of (C := sample) world0) [[50; 52; 53]; [51; 54]]
      /\ Forall (fun r => forall x y, x ∈ r -> y ∈ r ->
                   group_id (items world0 x) = group_id (items world0 y))
                (layout (key world0) (children (views world0 6)))).
Proof.
  assert (H12 : Forall (fun x => group_id (items world0 x) = None)
                       (children (views world0 5)))
    by (simpl; repeat constructor).
  assert (Hsmall : forall x g, x ∈ children (views world0 6) ->
            group_id (items world0 x) = Some g -> (g < maxsize)%Z).
  { intros x g Hx Hg. simpl in Hx.
    rewrite !elem_of_cons, elem_of_nil in Hx.
    destruct Hx as [-> | [-> | [-> | [-> | [-> | []]]]]];
      vm_compute in Hg; try discriminate Hg; injection Hg as <-; reflexivity. }
  split.
  - split; [reflexivity |]. split; [exact H12 |].
    destruct (to_components_rows (C := sample) world0 5)
      as (Hrows & _ & _ & _ & _ & _ & Htwelve & _).
    rewrite Hrows, Htwelve; [reflexivity | reflexivity | exact H12].
  - split; [exact Hsmall |]. split; [reflexivity |]. split; [reflexivity |].
    destruct (to_components_rows (C := sample) world0 6)
      as (Hrows & _ & _ & _ & _ & Hgroups & _ & Htwo).
    split.
    + rewrite Hrows, Htwo; [reflexivity | | reflexivity | reflexivity].
      apply (bool_decide_unpack _). vm_compute. exact I.
    + apply Hgroups. exact Hsmall.
Defined.

(** * Further properties of the two modules *)

(** ** The sweep *)

Lemma store_eq (s1 s2 : ViewStore) :
  _views s1 = _views s2 ->
  _synced_message_views s1 = _synced_message_views s2 -> s1 = s2.
Proof. destruct s1, s2. simpl. by intros -> ->. Qed.

(** The order of floats is transitive. *)
Lemma SFleb_trans (a b c : spec_float) :
  SFleb a b = true -> SFleb b c = true -> SFleb a c = true.
Proof.
  unfold SFleb, SFcompare.
  destruct a as [[] | [] | | [] ma ea], b as [[] | [] | | [] mb eb],
           c as [[] | [] | | [] mc ec];
    try done;
    change (Pos.compare_cont Eq) with Pos.compare;
    destruct (Z.compare_spec ea eb), (Z.compare_spec eb ec), (Z.compare_spec ea ec);
    try done; try lia;
    destruct (Pos.compare_spec ma mb), (Pos.compare_spec mb mc),
             (Pos.compare_spec ma mc);
    simpl; try done; try lia.
Qed.

Lemma float_leb_trans (a b c : float) :
  (a <=? b)%float = true -> (b <=? c)%float = true -> (a <=? c)%float = true.
Proof. rewrite !leb_spec. apply SFleb_trans. Qed.

(** X1: after [__verify_integrity] the store holds exactly the entries that
    had no expiry or an expiry that is not at or before the clock reading;
    no expired entry is left, and the message table is as before. *)
Theorem verify_integrity_survivors (now : float) (w : World) (k : Key) (e : Entry) :
  (_views (store (__verify_integrity now w)) !! k = Some e
   <-> _views (store w) !! k = Some e
       /\ (forall expiry, e.2 = Some expiry -> (expiry <=? now)%float = false))
  /\ _synced_message_views (store (__verify_integrity now w))
       = _synced_message_views (store w).
Proof.
  split; [| reflexivity].
  rewrite verify_integrity_lookup.
  destruct (_views (store w) !! k) as [e' |] eqn:Hk.
  - unfold expired. destruct e' as [[v i] [x |]]; simpl.
    + destruct (x <=? now)%float eqn:Hle; split.
      * done.
      * intros [[= <-] H]. specialize (H x eq_refl). congruence.
      * intros [= <-]. split; [done |]. simpl. by intros ? [= <-].
      * by intros [-> _].
    + split.
      * intros [= <-]. split; [done |]. simpl. done.
      * by intros [-> _].
  - split; [done | by intros [? _]].
Qed.

(** X2: sweeps compose: a sweep at a later reading absorbs one at an
    earlier reading, whichever comes first; in particular sweeping twice at
    one reading is sweeping once. *)
Theorem verify_integrity_absorbs (now now' : float) (w : World) :
  (now <=? now')%float = true ->
  store (__verify_integrity now' (__verify_integrity now w))
    = store (__verify_integrity now' w)
  /\ store (__verify_integrity now (__verify_integrity now' w))
       = store (__verify_integrity now' w).
Proof.
  intros Hle.
  assert (Hx : forall e, expired now e = true -> expired now' e = true).
  { intros [[v i] [x |]]; unfold expired; simpl; [| done].
    intros Hxn. by apply (float_leb_trans x now now'). }
  split; apply store_eq; try reflexivity; apply map_eq; intros k;
    rewrite !verify_integrity_lookup;
    destruct (_views (store w) !! k) as [e |]; try done.
  - destruct (expired now e) eqn:H1, (expired now' e) eqn:H2; try done.
    by rewrite (Hx e H1) in H2.
  - destruct (expired now' e) eqn:H2; [done |].
    destruct (expired now e) eqn:H1; [| done].
    by rewrite (Hx e H1) in H2.
Qed.

Lemma verify_integrity_absorbs_witness :
  (10 <=? 200)%float = true
  /\ store (__verify_integrity 200 (__verify_integrity 10 world1))
     = store (__verify_integrity 200 world1).
Proof.
  split; [reflexivity |].
  apply (verify_integrity_absorbs 10 200 world1). reflexivity.
Defined.

(** ** The message table as a dictionary *)

Lemma dict_get_set (k k' : Z) (v : ref) (d : list (Z * ref)) :
  dict_get k' (dict_set k v d) = if decide (k' = k) then Some v else dict_get k' d.
Proof.
  induction d as [| [k0 v0] d IH]; simpl.
  - destruct (decide (k' = k)); done.
  - destruct (decide (k = k0)) as [-> | Hne]; simpl.
    + destruct (decide (k' = k0)); done.
    + destruct (decide (k' = k0)) as [-> | Hne'].
      * destruct (decide (k0 = k)); [congruence | done].
      * apply IH.
Qed.

Lemma dict_set_keys (k : Z) (v : ref) (d : list (Z * ref)) :
  map fst (dict_set k v d)
  = if bool_decide (k ∈ map fst d) then map fst d else map fst d ++ [k].
Proof.
  induction d as [| [k0 v0] d IH]; simpl; [done |].
  destruct (decide (k = k0)) as [-> | Hne]; simpl.
  - rewrite bool_decide_eq_true_2; [done | left].
  - rewrite IH. destruct (bool_decide (k ∈ map fst d)) eqn:Hin.
    + apply bool_decide_eq_true in Hin.
      rewrite bool_decide_eq_true_2; [done | by right].
    + apply bool_decide_eq_false in Hin.
      rewrite bool_decide_eq_false_2; [done |].
      intros [? | ?]%elem_of_cons; done.
Qed.

Lemma dict_set_NoDup (k : Z) (v : ref) (d : list (Z * ref)) :
  NoDup (map fst d) -> NoDup (map fst (dict_set k v d)).
Proof.
  intros Hd. rewrite dict_set_keys.
  destruct (bool_decide (k ∈ map fst d)) eqn:Hin; [done |].
  apply bool_decide_eq_false in Hin.
  apply NoDup_app. split; [done |]. split; [| apply NoDup_singleton].
  intros x Hx ->%list_elem_of_singleton. done.
Qed.

(** ** Registration, continued *)

Section AddView.
Context `{C : Collaborators}.

Lemma start_listening_frame (w : World) (self : ref) :
  tasks (_start_listening w self) = tasks w
  /\ next_item (_start_listening w self) = next_item w
  /\ (forall v, v <> self -> views (_start_listening w self) v = views w v)
  /\ timeout (views (_start_listening w self) self) = timeout (views w self)
  /\ id (views (_start_listening w self) self) = id (views w self)
  /\ _stopped (views (_start_listening w self) self) = _stopped (views w self)
  /\ _cancel_callback (views (_start_listening w self) self)
       = Some store_remove_view.
Proof.
  unfold _start_listening. simpl. rewrite upd_same. simpl.
  destruct (timeout (views w self)) as [t |] eqn:Ht; simpl.
  - destruct (truthy t); simpl; rewrite ?upd_same; simpl;
      rewrite ?upd_same; simpl; rewrite ?Ht;
      (repeat split; try done; intros v Hv; by rewrite ?upd_other by done).
  - rewrite upd_same. simpl. rewrite Ht.
    repeat split; try done. intros v Hv. by rewrite upd_other.
Qed.

(** The entries of the store after [add_view], as a fold over the children. *)
Lemma add_view_entries (now_sweep now : float) (w : World) (view : ref)
    (message_id : option Z) :
  _views (store (add_view now_sweep now w view message_id).1)
  = fold_left (register view (_expires_at now (views w view)) (items w))
              (children (views w view))
              (_views (store (__verify_integrity now_sweep w))).
Proof.
  unfold add_view.
  destruct (start_listening_rest (__verify_integrity now_sweep w) view)
    as (Hi & Hs & Hc).
  rewrite add_view_loop, Hi, Hs, Hc.
  destruct message_id; reflexivity.
Qed.

Lemma add_view_frame (now_sweep now : float) (w : World) (view : ref)
    (message_id : option Z) :
  items (add_view now_sweep now w view message_id).1 = items w
  /\ tasks (add_view now_sweep now w view message_id).1 = tasks w
  /\ next_item (add_view now_sweep now w view message_id).1 = next_item w
  /\ children (views (add_view now_sweep now w view message_id).1 view)
       = children (views w view)
  /\ timeout (views (add_view now_sweep now w view message_id).1 view)
       = timeout (views w view)
  /\ (forall v, v <> view ->
        views (add_view now_sweep now w view message_id).1 v = views w v)
  /\ _synced_message_views (store (add_view now_sweep now w view message_id).1)
       = match message_id with
         | Some m => dict_set m view (_synced_message_views (store w))
         | None => _synced_message_views (store w)
         end.
Proof.
  unfold add_view.
  set (w1 := __verify_integrity now_sweep w).
  destruct (start_listening_rest w1 view) as (Hi & Hs & Hc).
  destruct (start_listening_frame w1 view) as (Ht & Hn & Hv & Hto & _).
  rewrite add_view_loop.
  destruct message_id; simpl; rewrite ?Hi, ?Ht, ?Hn, ?Hc, ?Hto, ?Hs;
    repeat split; try done; intros v Hne; by rewrite Hv.
Qed.

End AddView.

(** X3: [add_view] with a message id makes that message tracked by the view,
    replacing an earlier association of the same id and leaving the other
    ids alone, so that message ids stay unique in the table; without a
    message id the table is not touched. *)
Theorem add_view_tracks_message `{C : Collaborators} (now_sweep now : float)
    (w : World) (view : ref) (m : Z) :
  let w' := (add_view now_sweep now w view (Some m)).1 in
  is_message_tracked w' m = true
  /\ (forall m', dict_get m' (_synced_message_views (store w'))
                 = if decide (m' = m) then Some view
                   else dict_get m' (_synced_message_views (store w)))
  /\ (NoDup (map fst (_synced_message_views (store w))) ->
      NoDup (map fst (_synced_message_views (store w'))))
  /\ _synced_message_views (store (add_view now_sweep now w view None).1)
       = _synced_message_views (store w).
Proof.
  intros w'. subst w'.
  destruct (add_view_frame now_sweep now w view (Some m)) as (_ & _ & _ & _ & _ & _ & Hs).
  destruct (add_view_frame now_sweep now w view None) as (_ & _ & _ & _ & _ & _ & Hn).
  unfold is_message_tracked. rewrite Hs, Hn.
  repeat split.
  - apply bool_decide_eq_true. rewrite dict_get_set.
    destruct (decide (m = m)); [by eexists | done].
  - intros m'. apply dict_get_set.
  - apply dict_set_NoDup.
Qed.

Lemma add_view_tracks_message_witness :
  NoDup (map fst (_synced_message_views (store world1)))
  /\ is_message_tracked (add_view (C := sample) 5 5 world1 2 (Some 77%Z)).1 77 = true
  /\ NoDup (map fst (_synced_message_views
                       (store (add_view (C := sample) 5 5 world1 2 (Some 77%Z)).1))).
Proof.
  assert (H : NoDup (map fst (_synced_message_views (store world1))))
    by (vm_compute; constructor).
  destruct (add_view_tracks_message (C := sample) 5 5 world1 2 77)
    as (Ht & _ & Hn & _).
  split; [exact H |]. split; [exact Ht | exact (Hn H)].
Defined.

Section RoundTrips.
Context `{C : Collaborators}.

Lemma dispatch_hit (now_sweep now : float) (w : World) (ct : Z) (cid : string)
    (i : Interaction) (view item : ref) (e : option float) :
  _views (store (__verify_integrity now_sweep w)) !! (ct, Some cid)
    = Some (view, item, e) ->
  tasks (dispatch now_sweep now w ct cid i)
    = tasks w ++ [asyncio.scheduled_task view item i]
  /\ items (dispatch now_sweep now w ct cid i) item
       = refresh_state i (items w item)
  /\ _views (store (dispatch now_sweep now w ct cid i)) !! (ct, Some cid)
       = Some (view, item, _expires_at now (views w view)).
Proof.
  intros H. unfold dispatch. rewrite H. simpl.
  rewrite upd_same, lookup_insert_eq. done.
Qed.

Lemma pop_items_frame (cs : list ref) (w : World) (k : Key) :
  (forall r, r ∈ cs -> is_dispatchable (items w r) = true ->
             item_key (items w r) <> k) ->
  _views (store (pop_items w cs).1) !! k = _views (store w) !! k.
Proof.
  revert w. induction cs as [| x cs IH]; intros w H; simpl; [done |].
  destruct (is_dispatchable (items w x)) eqn:Hx.
  - destruct (_views (store w) !! item_key (items w x)); [| done].
    rewrite IH.
    + simpl. apply lookup_delete_ne. apply H; [left | done].
    + simpl. intros r Hr. apply H. by right.
  - apply IH. intros r Hr. apply H. by right.
Qed.

Lemma pop_items_returns (cs : list ref) (w : World) :
  NoDup (map (fun r => item_key (items w r))
             (filter (fun r => is_dispatchable (items w r) = true) cs)) ->
  (forall r, r ∈ cs -> is_dispatchable (items w r) = true ->
             is_Some (_views (store w) !! item_key (items w r))) ->
  (pop_items w cs).2 = Returns tt.
Proof.
  revert w. induction cs as [| x cs IH]; intros w Hnd Hall; simpl; [done |].
  destruct (is_dispatchable (items w x)) eqn:Hx.
  - rewrite filter_cons_True in Hnd by done. simpl in Hnd.
    apply NoDup_cons in Hnd as [Hnotin Hnd].
    destruct (Hall x) as [e He]; [left | done |]. rewrite He.
    apply IH; [done |]. simpl. intros r Hr Hd.
    rewrite lookup_delete_ne; [apply Hall; [by right | done] |].
    intros Heq. apply Hnotin. rewrite Heq.
    apply list_elem_of_In, in_map_iff. exists r. split; [done |].
    by apply list_elem_of_In, list_elem_of_filter.
  - rewrite filter_cons_False in Hnd by (by rewrite Hx).
    apply IH; [done |]. intros r Hr. apply Hall. by right.
Qed.

End RoundTrips.

(** X4: registration and dispatch fit together: after [add_view], a dispatch
    to the key of a dispatchable child, swept at a reading before the
    view's expiry (or at any reading when the view has none), hands the
    loop exactly one task for that view and for a child carrying the key,
    and refreshes that child's state from the interaction. *)
Theorem add_view_then_dispatch `{C : Collaborators}
    (now_sweep now now_sweep' now' : float) (w : World) (view : ref)
    (message_id : option Z) (item : ref) (ct : Z) (cid : string)
    (i : Interaction) :
  item ∈ children (views w view) ->
  is_dispatchable (items w item) = true ->
  item_key (items w item) = (ct, Some cid) ->
  (forall e, _expires_at now (views w view) = Some e ->
             (e <=? now_sweep')%float = false) ->
  let w1 := (add_view now_sweep now w view message_id).1 in
  exists item',
    item' ∈ children (views w view)
    /\ item_key (items w item') = (ct, Some cid)
    /\ tasks (dispatch now_sweep' now' w1 ct cid i)
         = tasks w ++ [asyncio.scheduled_task view item' i]
    /\ items (dispatch now_sweep' now' w1 ct cid i) item'
         = refresh_state i (items w item').
Proof.
  intros Hin Hd Hk Hlive w1.
  destruct (add_view_frame now_sweep now w view message_id)
    as (Hi & Ht & _).
  destruct (register_fold_hit view (_expires_at now (views w view)) (items w)
              (children (views w view))
              (_views (store (__verify_integrity now_sweep w))) (ct, Some cid))
    as (item' & Hin' & Hd' & Hk' & Hl); [by exists item |].
  rewrite <- (add_view_entries now_sweep now w view message_id) in Hl.
  fold w1 in Hl, Hi, Ht.
  assert (Hs : _views (store (__verify_integrity now_sweep' w1)) !! (ct, Some cid)
               = Some (view, item', _expires_at now (views w view))).
  { rewrite verify_integrity_lookup, Hl. unfold expired. simpl.
    destruct (_expires_at now (views w view)) as [e |]; [| done].
    by rewrite (Hlive e eq_refl). }
  destruct (dispatch_hit now_sweep' now' w1 ct cid i _ _ _ Hs) as (Htask & Hitem & _).
  exists item'. rewrite Htask, Hitem, Ht, Hi. done.
Qed.

Lemma add_view_then_dispatch_witness :
  (10 ∈ children (views world0 1)
   /\ is_dispatchable (C := sample) (items world0 10) = true
   /\ item_key (C := sample) (items world0 10) = (3%Z, Some "a"%string)
   /\ _expires_at 0 (views world0 1) = Some 180%float)
  /\ exists item',
       item' ∈ children (views world0 1)
       /\ item_key (C := sample) (items world0 item') = (3%Z, Some "a"%string)
       /\ tasks (dispatch (C := sample) 100 101
                   (add_view (C := sample) 0 0 world0 1 None).1 3 "a"
                   (click (Some ["x"])))
          = tasks world0 ++ [asyncio.scheduled_task 1 item' (click (Some ["x"]))]
       /\ items (dispatch (C := sample) 100 101
                   (add_view (C := sample) 0 0 world0 1 None).1 3 "a"
                   (click (Some ["x"]))) item'
          = refresh_state (C := sample) (click (Some ["x"])) (items world0 item').
Proof.
  assert (H10 : 10 ∈ children (views world0 1)) by (vm_compute; left).
  split; [split; [exact H10 | repeat split] |].
  apply (add_view_then_dispatch (C := sample) 0 0 100 101 world0 1 None 10 3 "a");
    [exact H10 | reflexivity | reflexivity |].
  intros e [= <-]. reflexivity.
Defined.

(** ** Removal, continued *)

Section RemoveView.
Context `{C : Collaborators}.

Lemma remove_view_pops (w : World) (view : ref) :
  (remove_view w view).2 = (pop_items w (children (views w view))).2
  /\ _views (store (remove_view w view).1)
       = _views (store (pop_items w (children (views w view))).1)
  /\ tasks (remove_view w view).1 = tasks w
  /\ timers (remove_view w view).1 = timers w
  /\ next_item (remove_view w view).1 = next_item w.
Proof.
  assert (Hp : forall cs w0, tasks (pop_items w0 cs).1 = tasks w0
                             /\ timers (pop_items w0 cs).1 = timers w0
                             /\ next_item (pop_items w0 cs).1 = next_item w0).
  { induction cs as [| x cs IH]; intros w0; simpl; [done |].
    destruct (is_dispatchable (items w0 x)); [| apply IH].
    destruct (_views (store w0) !! item_key (items w0 x)); [| done].
    destruct (IH (set__views (delete (item_key (items w0 x))
                                     (_views (store w0))) w0)) as (-> & -> & ->).
    done. }
  unfold remove_view. destruct (Hp (children (views w view)) w) as (Ht & Hm & Hn).
  destruct (pop_items w (children (views w view))) as [w1 [[] | e]]; done.
Qed.

Lemma del_first_other (p : ref -> bool) (d : list (Z * ref)) (m : Z) (v : ref) :
  dict_get m d = Some v -> p v = false -> dict_get m (del_first p d) = Some v.
Proof.
  induction d as [| [k0 v0] d IH]; simpl; [done |].
  destruct (decide (m = k0)) as [-> | Hne].
  - intros [= ->] Hp. rewrite Hp. simpl. by destruct (decide (k0 = k0)).
  - intros Hg Hp. destruct (p v0); [done |]. simpl.
    destruct (decide (m = k0)); [done | by apply IH].
Qed.

Lemma del_first_length (p : ref -> bool) (d : list (Z * ref)) :
  length d <= length (del_first p d) + 1
  /\ ((exists m v, (m, v) ∈ d /\ p v = true) ->
      length (del_first p d) + 1 = length d).
Proof.
  induction d as [| [k0 v0] d [IH1 IH2]]; simpl.
  - split; [lia |]. intros (m & v & Hin & _). by apply elem_of_nil in Hin.
  - destruct (p v0) eqn:Hp; simpl; [split; lia |].
    split; [lia |]. intros (m & v & Hin & Hv).
    apply elem_of_cons in Hin as [[= -> ->] | Hin]; [congruence |].
    rewrite <- IH2; [lia | by exists m, v].
Qed.

End RemoveView.

(** X5: registration and removal fit together when the dispatchable
    children of the view carry distinct keys: [remove_view] right after
    [add_view] returns, none of the view's keys is left, and every other key
    holds what the sweep of [add_view] left it. *)
Theorem add_view_then_remove_view `{C : Collaborators} (now_sweep now : float)
    (w : World) (view : ref) (message_id : option Z) :
  NoDup (map (fun r => item_key (items w r))
             (filter (fun r => is_dispatchable (items w r) = true)
                     (children (views w view)))) ->
  let w1 := (add_view now_sweep now w view message_id).1 in
  (remove_view w1 view).2 = Returns tt
  /\ (forall item, item ∈ children (views w view) ->
        is_dispatchable (items w item) = true ->
        _views (store (remove_view w1 view).1) !! item_key (items w item) = None)
  /\ (forall k,
        (forall item, item ∈ children (views w view) ->
                      is_dispatchable (items w item) = true ->
                      item_key (items w item) <> k) ->
        _views (store (remove_view w1 view).1) !! k
        = _views (store (__verify_integrity now_sweep w)) !! k).
Proof.
  intros Hnd w1.
  destruct (add_view_frame now_sweep now w view message_id)
    as (Hi & _ & _ & Hc & _).
  pose proof (add_view_entries now_sweep now w view message_id) as He.
  fold w1 in Hi, Hc, He.
  destruct (remove_view_pops w1 view) as (Hr & Hv & _).
  rewrite Hr, Hv, Hc.
  assert (Hret : (pop_items w1 (children (views w view))).2 = Returns tt).
  { apply pop_items_returns; rewrite Hi; [done |].
    intros r Hr' Hd. rewrite He.
    destruct (register_fold_hit view (_expires_at now (views w view)) (items w)
                (children (views w view))
                (_views (store (__verify_integrity now_sweep w)))
                (item_key (items w r))) as (r' & _ & _ & _ & ->);
      [by exists r | by eexists]. }
  split; [done |]. split.
  - intros item Hin Hd. rewrite <- Hi.
    apply pop_items_returns_absent; [done | done | by rewrite Hi].
  - intros k Hk. rewrite pop_items_frame by (by rewrite Hi).
    rewrite He. by apply register_fold_miss.
Qed.

Lemma add_view_then_remove_view_witness :
  NoDup (map (fun r => item_key (C := sample) (items world0 r))
             (filter (fun r => is_dispatchable (C := sample) (items world0 r) = true)
                     (children (views world0 1))))
  /\ (remove_view (C := sample) (add_view (C := sample) 0 0 world0 1 None).1 1).2
     = Returns tt.
Proof.
  assert (H : NoDup (map (fun r => item_key (C := sample) (items world0 r))
             (filter (fun r => is_dispatchable (C := sample) (items world0 r) = true)
                     (children (views world0 1))))).
  { apply (bool_decide_unpack _). vm_compute. exact I. }
  split; [exact H |].
  apply (add_view_then_remove_view (C := sample) 0 0 world0 1 None H).
Defined.

(** X6: [remove_view] touches only the keys of the view's dispatchable
    children: every other entry, the items, the views, the timers and the
    tasks are as before, whether the call returns or raises; and a call that
    raises leaves the message table as it was. *)
Theorem remove_view_frame `{C : Collaborators} (w : World) (view : ref) :
  (forall k,
     (forall item, item ∈ children (views w view) ->
                   is_dispatchable (items w item) = true ->
                   item_key (items w item) <> k) ->
     _views (store (remove_view w view).1) !! k = _views (store w) !! k)
  /\ items (remove_view w view).1 = items w
  /\ views (remove_view w view).1 = views w
  /\ timers (remove_view w view).1 = timers w
  /\ tasks (remove_view w view).1 = tasks w
  /\ (forall e, (remove_view w view).2 = Raises e ->
        e = KeyError
        /\ _synced_message_views (store (remove_view w view).1)
             = _synced_message_views (store w)).
Proof.
  destruct (remove_view_pops w view) as (Hr & Hv & Ht & Hm & _).
  destruct (remove_view_rest w view) as (Hi & Hvs).
  split; [| repeat split; try done].
  - intros k Hk. rewrite Hv. by apply pop_items_frame.
  - revert H. unfold remove_view.
    assert (Hk : forall cs w0 e0, (pop_items w0 cs).2 = Raises e0 -> e0 = KeyError).
    { induction cs as [| x cs IH]; intros w0 e0; simpl; [done |].
      destruct (is_dispatchable (items w0 x)); [| apply IH].
      destruct (_views (store w0) !! item_key (items w0 x)); [apply IH |].
      by intros [= <-]. }
    specialize (Hk (children (views w view)) w).
    destruct (pop_items w (children (views w view))) as [w1 [[] | e0]]; [done |].
    simpl. intros [= <-]. by apply Hk.
  - revert H. unfold remove_view.
    pose proof (pop_items_rest (children (views w view)) w) as (_ & _ & Hs).
    destruct (pop_items w (children (views w view))) as [w1 [[] | e0]]; done.
Qed.

Lemma remove_view_frame_witness :
  (forall item, item ∈ children (views world1 2) ->
     is_dispatchable (C := sample) (items world1 item) = true ->
     item_key (C := sample) (items world1 item) <> (3%Z, Some "b"%string))
  /\ _views (store (remove_view (C := sample) world1 2).1) !! (3%Z, Some "b"%string)
     = _views (store world1) !! (3%Z, Some "b"%string).
Proof.
  assert (H : forall item, item ∈ children (views world1 2) ->
     is_dispatchable (C := sample) (items world1 item) = true ->
     item_key (C := sample) (items world1 item) <> (3%Z, Some "b"%string)).
  { intros item Hin _. vm_compute in Hin.
    apply list_elem_of_singleton in Hin as ->. vm_compute. discriminate. }
  split; [exact H |].
  destruct (remove_view_frame (C := sample) world1 2) as (Hf & _).
  exact (Hf _ H).
Defined.

(** X7: a [remove_view] that returns drops at most one message association,
    the first whose view has the identifier of the removed view: messages of
    views with another identifier stay tracked, and when the view itself is
    tracked exactly one association goes, even if it is tracked under
    several message ids. *)
Theorem remove_view_untracks_once `{C : Collaborators} (w : World) (view : ref) :
  (remove_view w view).2 = Returns tt ->
  (forall m v,
     dict_get m (_synced_message_views (store w)) = Some v ->
     id (views w v) <> id (views w view) ->
     dict_get m (_synced_message_views (store (remove_view w view).1)) = Some v)
  /\ length (_synced_message_views (store w))
     <= length (_synced_message_views (store (remove_view w view).1)) + 1
  /\ ((exists m, (m, view) ∈ _synced_message_views (store w)) ->
      length (_synced_message_views (store (remove_view w view).1)) + 1
      = length (_synced_message_views (store w))).
Proof.
  unfold remove_view.
  pose proof (pop_items_rest (children (views w view)) w) as (_ & Hv & Hs).
  destruct (pop_items w (children (views w view))) as [w1 [[] | e]]; [| done].
  simpl in *. intros _. rewrite Hv, Hs.
  set (p := fun value => bool_decide (id (views w value) = id (views w view))).
  destruct (del_first_length p (_synced_message_views (store w))) as (Hl1 & Hl2).
  split; [| split; [done |]].
  - intros m v Hg Hne. apply del_first_other; [done |].
    subst p. simpl. by apply bool_decide_eq_false.
  - intros (m & Hin). apply Hl2. exists m, view. split; [done |].
    subst p. simpl. by apply bool_decide_eq_true.
Qed.

Lemma remove_view_untracks_once_witness :
  (remove_view (C := sample)
     (add_view (C := sample) 0 0
        (add_view (C := sample) 0 0 world0 1 (Some 7%Z)).1 1 (Some 8%Z)).1 1).2
  = Returns tt
  /\ length (_synced_message_views
               (store (remove_view (C := sample)
                  (add_view (C := sample) 0 0
                     (add_view (C := sample) 0 0 world0 1 (Some 7%Z)).1 1
                     (Some 8%Z)).1 1).1)) + 1
     = length (_synced_message_views
                 (store (add_view (C := sample) 0 0
                    (add_view (C := sample) 0 0 world0 1 (Some 7%Z)).1 1
                    (Some 8%Z)).1)).
Proof.
  assert (H : (remove_view (C := sample)
     (add_view (C := sample) 0 0
        (add_view (C := sample) 0 0 world0 1 (Some 7%Z)).1 1 (Some 8%Z)).1 1).2
              = Returns tt) by (vm_compute; reflexivity).
  split; [exact H |].
  destruct (remove_view_untracks_once (C := sample) _ 1 H) as (_ & _ & Hl).
  apply Hl. exists 7%Z. vm_compute. left.
Defined.

(** X8: a dispatch changes, beyond the sweep, nothing but the entry of the
    key it was given: every other key holds what the sweep left it, and the
    message table, the views, the timers and the allocation counter are as
    before. *)
Theorem dispatch_frame `{C : Collaborators} (now_sweep now : float) (w : World)
    (component_type : Z) (custom_id : string) (interaction : Interaction) :
  let w' := dispatch now_sweep now w component_type custom_id interaction in
  (forall k, k <> (component_type, Some custom_id) ->
     _views (store w') !! k
     = _views (store (__verify_integrity now_sweep w)) !! k)
  /\ _synced_message_views (store w') = _synced_message_views (store w)
  /\ views w' = views w
  /\ timers w' = timers w
  /\ next_item w' = next_item w.
Proof.
  intros w'. subst w'. unfold dispatch.
  destruct (_views (store (__verify_integrity now_sweep w))
              !! (component_type, Some custom_id)) as [[[v it] e] |]; simpl.
  - repeat split. intros k Hk. by apply lookup_insert_ne.
  - repeat split.
Qed.

Lemma dispatch_frame_witness :
  (3%Z, Some "b"%string) <> (3%Z, Some "a"%string)
  /\ _views (store (dispatch (C := sample) 10 11 world1 3 "a" (click None)))
       !! (3%Z, Some "b"%string)
     = _views (store (__verify_integrity 10 world1)) !! (3%Z, Some "b"%string).
Proof.
  assert (H : (3%Z, Some "b"%string) <> (3%Z, Some "a"%string)) by discriminate.
  split; [exact H |].
  destruct (dispatch_frame (C := sample) 10 11 world1 3 "a" (click None)) as (Hf & _).
  exact (Hf _ H).
Defined.

(** ** Timers, stopping and timing out *)

Section Timers.
Context `{C : Collaborators}.

Lemma start_listening_armed (w : World) (self : ref) (t : float) :
  timeout (views w self) = Some t -> truthy t = true ->
  timers (_start_listening w self)
    = timers w ++ [ {| asyncio.delay := t; asyncio.target := self;
                       asyncio.cancelled := false |} ]
  /\ _timeout_handler (views (_start_listening w self) self)
       = Some (length (timers w)).
Proof.
  intros Ht Hne. unfold _start_listening. simpl. rewrite upd_same. simpl.
  rewrite Ht, Hne. simpl.
  by rewrite !upd_same.
Qed.

Lemma start_listening_unarmed (w : World) (self : ref) :
  timeout (views w self) = None
  \/ (exists t, timeout (views w self) = Some t /\ truthy t = false) ->
  timers (_start_listening w self) = timers w
  /\ _timeout_handler (views (_start_listening w self) self)
       = _timeout_handler (views w self).
Proof.
  intros Ht. unfold _start_listening. simpl. rewrite upd_same. simpl.
  destruct Ht as [-> | (t & -> & ->)]; simpl; by rewrite upd_same.
Qed.

Lemma stop_pending (w : World) (self : ref) :
  _stopped (views w self) = asyncio.Pending ->
  timers (stop w self).1
    = match _timeout_handler (views w self) with
      | Some h => alter asyncio.cancel h (timers w)
      | None => timers w
      end
  /\ _stopped (views (stop w self).1 self) = asyncio.Done false
  /\ (_cancel_callback (views w self) = None ->
      (stop w self).2 = Returns tt /\ store (stop w self).1 = store w).
Proof.
  intros Hs. unfold stop. rewrite Hs.
  change (asyncio.set_result false asyncio.Pending)
    with (Returns (asyncio.Done false)).
  cbv beta iota zeta.
  set (w1 := set_view self (with_stopped (asyncio.Done false) (views w self)) w).
  assert (H1 : views w1 self = with_stopped (asyncio.Done false) (views w self))
    by (subst w1; simpl; apply upd_same).
  rewrite H1. simpl.
  set (w2 := match _timeout_handler (views w self) with
             | Some h => set_timers (alter asyncio.cancel h (timers w)) w1
             | None => w1
             end).
  assert (H2 : views w2 = views w1 /\ store w2 = store w
               /\ timers w2 = match _timeout_handler (views w self) with
                              | Some h => alter asyncio.cancel h (timers w)
                              | None => timers w
                              end)
    by (subst w2; by destruct (_timeout_handler (views w self))).
  destruct H2 as (Hv2 & Hs2 & Ht2).
  rewrite Hv2, H1. simpl.
  destruct (_cancel_callback (views w self)) as [[] |].
  - destruct (remove_view_pops w2 self) as (_ & _ & _ & -> & _).
    destruct (remove_view_rest w2 self) as (_ & ->).
    rewrite Hv2, H1. done.
  - simpl. rewrite Hv2, H1. done.
Qed.

End Timers.

(** X9: a view with a non-zero timeout that starts listening arms one timer,
    with the timeout as delay, and a later [stop] leaves exactly that timer
    cancelled and the earlier ones as they were; a view whose timeout is
    [None] or zero arms no timer. *)
Theorem start_listening_then_stop `{C : Collaborators} (w : World) (self : ref) :
  _stopped (views w self) = asyncio.Pending ->
  (forall t, timeout (views w self) = Some t -> truthy t = true ->
     timers (stop (_start_listening w self) self).1
     = timers w ++ [ {| asyncio.delay := t; asyncio.target := self;
                        asyncio.cancelled := true |} ])
  /\ (timeout (views w self) = None
      \/ (exists t, timeout (views w self) = Some t /\ truthy t = false) ->
      timers (_start_listening w self) = timers w).
Proof.
  intros Hs. split.
  - intros t Ht Hne.
    destruct (start_listening_armed w self t Ht Hne) as (Htm & Hh).
    destruct (start_listening_frame w self) as (_ & _ & _ & _ & _ & Hst & _).
    destruct (stop_pending (_start_listening w self) self) as (Hstop & _);
      [by rewrite Hst |].
    rewrite Hstop, Hh, Htm.
    rewrite <- (Nat.add_0_r (length (timers w))).
    by rewrite alter_app_r.
  - intros Ht. by destruct (start_listening_unarmed w self Ht).
Qed.

Lemma start_listening_then_stop_witness :
  (_stopped (views world0 1) = asyncio.Pending
   /\ timeout (views world0 1) = Some 180%float)
  /\ timers (stop (C := sample) (_start_listening world0 1) 1).1
     = timers world0 ++ [ {| asyncio.delay := 180%float; asyncio.target := 1;
                             asyncio.cancelled := true |} ].
Proof.
  split; [split; reflexivity |].
  destruct (start_listening_then_stop (C := sample) world0 1) as (H & _);
    [reflexivity |].
  apply (H 180%float); reflexivity.
Defined.

(** X10: a view that never started listening can be stopped: [stop] returns,
    resolves the future with [False], and leaves the store alone. *)
Theorem stop_without_store `{C : Collaborators} (w : World) (self : ref) :
  _stopped (views w self) = asyncio.Pending ->
  _cancel_callback (views w self) = None ->
  (stop w self).2 = Returns tt
  /\ _stopped (views (stop w self).1 self) = asyncio.Done false
  /\ store (stop w self).1 = store w.
Proof.
  intros Hs Hc. destruct (stop_pending w self Hs) as (_ & Hd & Hr).
  destruct (Hr Hc) as (? & ?). done.
Qed.

Lemma stop_without_store_witness :
  (_stopped (views world1 2) = asyncio.Pending
   /\ _cancel_callback (views world1 2) = None)
  /\ (stop (C := sample) world1 2).2 = Returns tt
  /\ _stopped (views (stop (C := sample) world1 2).1 2) = asyncio.Done false
  /\ store (stop (C := sample) world1 2).1 = store world1.
Proof.
  split; [split; reflexivity |].
  apply (stop_without_store (C := sample) world1 2); reflexivity.
Defined.

(** X11: timing out and stopping exclude each other: [dispatch_timeout]
    never touches the store or the items (the entries of a timed-out view
    stay registered), and whichever of [stop] and [dispatch_timeout] runs
    second raises [InvalidStateError] and changes nothing. *)
Theorem timeout_and_stop_exclusive `{C : Collaborators} (w : World) (self : ref) :
  store (dispatch_timeout w self).1 = store w
  /\ items (dispatch_timeout w self).1 = items w
  /\ stop (dispatch_timeout w self).1 self
     = ((dispatch_timeout w self).1, Raises InvalidStateError)
  /\ dispatch_timeout (stop w self).1 self
     = ((stop w self).1, Raises InvalidStateError)
  /\ (_stopped (views w self) = asyncio.Pending ->
      (dispatch_timeout w self).2 = Returns tt
      /\ _stopped (views (dispatch_timeout w self).1 self) = asyncio.Done true
      /\ tasks (dispatch_timeout w self).1 = tasks w ++ [asyncio.on_timeout self]).
Proof.
  assert (Hd : exists r, _stopped (views (dispatch_timeout w self).1 self)
                         = asyncio.Done r).
  { unfold dispatch_timeout. destruct (_stopped (views w self)) as [| r] eqn:Hs; simpl.
    - exists true. by rewrite upd_same.
    - exists r. done. }
  split; [| split; [| split; [| split]]].
  - unfold dispatch_timeout. by destruct (_stopped (views w self)).
  - unfold dispatch_timeout. by destruct (_stopped (views w self)).
  - destruct Hd as (r & Hr). by apply (stop_when_done _ _ r).
  - destruct (stop_marks_done w self) as (r & Hr).
    unfold dispatch_timeout. by rewrite Hr.
  - intros Hs. unfold dispatch_timeout. rewrite Hs. simpl. by rewrite upd_same.
Qed.

Lemma timeout_and_stop_exclusive_witness :
  _stopped (views world1 1) = asyncio.Pending
  /\ (dispatch_timeout world1 1).2 = Returns tt
  /\ _views (store (dispatch_timeout world1 1).1) !! (3%Z, Some "a"%string)
     = Some (1, 10, Some 180%float)
  /\ (stop (C := sample) (dispatch_timeout world1 1).1 1).2
     = Raises InvalidStateError.
Proof.
  destruct (timeout_and_stop_exclusive (C := sample) world1 1)
    as (Hs & _ & Hstop & _ & Hp).
  split; [reflexivity |].
  destruct (Hp eq_refl) as (Hr & _).
  split; [exact Hr |]. split.
  - rewrite Hs. vm_compute. reflexivity.
  - by rewrite Hstop.
Defined.

(** ** Adding, removing and clearing items *)

(** X12: [add_item] on a view with at most 25 children returns, appends the
    item as the last child and sets the item's [_view] to the view; in every
    case the store and the other views are untouched, and a view with at
    most 26 children never gets more than 26. *)
Theorem add_item_appends (w : World) (self item : ref) :
  store (add_item w self item).1 = store w
  /\ (forall v, v <> self -> views (add_item w self item).1 v = views w v)
  /\ (length (children (views w self)) <= 25 ->
      (add_item w self item).2 = Returns tt
      /\ children (views (add_item w self item).1 self)
           = children (views w self) ++ [item]
      /\ _view (items (add_item w self item).1 item) = Some self)
  /\ (length (children (views w self)) <= 26 ->
      length (children (views (add_item w self item).1 self)) <= 26).
Proof.
  unfold add_item.
  destruct (Nat.ltb_spec 25 (length (children (views w self)))) as [Hgt | Hle];
    simpl.
  - repeat split; try done; lia.
  - rewrite !upd_same. simpl.
    repeat split; try done.
    + intros v Hv. by rewrite upd_other.
    + rewrite length_app. simpl. lia.
Qed.

Lemma add_item_appends_witness :
  length (children (views world0 1)) <= 25
  /\ (add_item world0 1 20).2 = Returns tt
  /\ children (views (add_item world0 1 20).1 1) = children (views world0 1) ++ [20]
  /\ _view (items (add_item world0 1 20).1 20) = Some 1.
Proof.
  assert (H : length (children (views world0 1)) <= 25) by (simpl; lia).
  split; [exact H |].
  destruct (add_item_appends world0 1 20) as (_ & _ & Hr & _).
  exact (Hr H).
Defined.

Lemma list_remove_absent (item : ref) (l : list ref) :
  item ∉ l -> list_remove item l = Raises ValueError.
Proof.
  induction l as [| x l IH]; simpl; [done |].
  intros Hn. destruct (decide (x = item)) as [-> | Hne].
  - destruct Hn. left.
  - rewrite IH; [done |]. intros Hin. apply Hn. by right.
Qed.

Lemma list_remove_first (item : ref) (l1 l2 : list ref) :
  item ∉ l1 -> list_remove item (l1 ++ item :: l2) = Returns (l1 ++ l2).
Proof.
  induction l1 as [| x l1 IH]; simpl; intros Hn.
  - by destruct (decide (item = item)).
  - destruct (decide (x = item)) as [-> | Hne].
    + destruct Hn. left.
    + rewrite IH; [done |]. intros Hin. apply Hn. by right.
Qed.

(** X13: [remove_item] drops the first occurrence of the item among the
    children and only that, and never writes to an item; for an item that
    is not a child it changes nothing at all (the [ValueError] is
    swallowed).  After an [add_item] of an item that was not a child it
    gives back the earlier list of children, but the item's [_view], set by
    [add_item], stays set to the view. *)
Theorem remove_item_first_occurrence (w : World) (self item : ref) :
  (item ∉ children (views w self) -> remove_item w self item = w)
  /\ (forall l1 l2,
        children (views w self) = l1 ++ item :: l2 -> item ∉ l1 ->
        children (views (remove_item w self item) self) = l1 ++ l2)
  /\ (item ∉ children (views w self) ->
      length (children (views w self)) <= 25 ->
      children (views (remove_item (add_item w self item).1 self item) self)
      = children (views w self)
      /\ _view (items (remove_item (add_item w self item).1 self item) item)
         = Some self)
  /\ items (remove_item w self item) = items w
  /\ store (remove_item w self item) = store w.
Proof.
  assert (Hitems : forall w0, items (remove_item w0 self item) = items w0).
  { intros w0. unfold remove_item.
    by destruct (list_remove item (children (views w0 self))). }
  split; [| split; [| split; [| split]]].
  - intros Hn. unfold remove_item. by rewrite list_remove_absent.
  - intros l1 l2 Hc Hn. unfold remove_item.
    rewrite Hc, list_remove_first by done. simpl. by rewrite upd_same.
  - intros Hn Hle.
    destruct (add_item_appends w self item) as (_ & _ & Hr & _).
    destruct (Hr Hle) as (_ & Hc & Hview).
    split; [| by rewrite Hitems].
    unfold remove_item. rewrite Hc, list_remove_first by done.
    simpl. rewrite upd_same. simpl. apply app_nil_r.
  - apply Hitems.
  - unfold remove_item.
    by destruct (list_remove item (children (views w self))).
Qed.

Lemma remove_item_first_occurrence_witness :
  ((20 ∉ children (views world0 1)) /\ remove_item world0 1 20 = world0)
  /\ (children (views world0 1) = [] ++ 10 :: [11]
      /\ children (views (remove_item world0 1 10) 1) = [] ++ [11])
  /\ (length (children (views world0 1)) <= 25
      /\ children (views (remove_item (add_item world0 1 20).1 1 20) 1)
         = children (views world0 1)
      /\ _view (items (remove_item (add_item world0 1 20).1 1 20) 20) = Some 1).
Proof.
  assert (Hn : 20 ∉ children (views world0 1)).
  { simpl. intros H. rewrite !elem_of_cons, elem_of_nil in H.
    destruct H as [H | [H | []]]; discriminate H. }
  assert (Hle : length (children (views world0 1)) <= 25) by (simpl; lia).
  destruct (remove_item_first_occurrence world0 1 20) as (Ha & _ & Hu & _).
  destruct (remove_item_first_occurrence world0 1 10) as (_ & Hf & _).
  split; [split; [exact Hn | exact (Ha Hn)] |].
  split; [split; [reflexivity |] | split; [exact Hle | exact (Hu Hn Hle)]].
  apply (Hf [] [11]); [reflexivity | apply not_elem_of_nil].
Defined.

(** X14: after [clear_items] the view has no children, lays out no rows, and
    accepts an item, which becomes its only child. *)
Theorem clear_items_empties `{C : Collaborators} (w : World) (self item : ref) :
  children (views (clear_items w self) self) = []
  /\ to_components (clear_items w self) self = []
  /\ (add_item (clear_items w self) self item).2 = Returns tt
  /\ children (views (add_item (clear_items w self) self item).1 self) = [item]
  /\ store (clear_items w self) = store w.
Proof.
  assert (Hc : children (views (clear_items w self) self) = [])
    by (unfold clear_items; simpl; by rewrite upd_same).
  destruct (add_item_appends (clear_items w self) self item) as (_ & _ & Hr & _).
  rewrite Hc in Hr. destruct Hr as (Hret & Hch & _); [simpl; lia |].
  split; [done |]. split; [| split; [| split]].
  - unfold to_components. by rewrite Hc.
  - exact Hret.
  - exact Hch.
  - reflexivity.
Qed.

(** ** Row sizes *)

Lemma map_seq_const {B : Type} (f : nat -> B) (c : B) (q : nat) :
  (forall j, j < q -> f j = c) -> map f (seq 0 q) = replicate q c.
Proof.
  induction q as [| q IH]; intros H; [done |].
  rewrite seq_S, map_app, replicate_S_end, IH by (intros; apply H; lia).
  simpl. by rewrite H by lia.
Qed.

Lemma chunks_lengths {A : Type} (g : list A) :
  g <> [] ->
  map length (chunks g)
  = replicate (length g / 5) 5
    ++ (if decide (length g mod 5 = 0) then [] else [length g mod 5]).
Proof.
  intros Hne. unfold chunks.
  destruct (Nat.leb_spec (length g) 5) as [Hle | Hgt].
  - do 6 (destruct g as [| ? g]; [done || reflexivity |]). simpl in Hle. lia.
  - unfold range. rewrite !map_map.
    set (n := length g) in *.
    pose proof (Nat.Div0.div_mod n 5) as Hdm.
    pose proof (Nat.mod_upper_bound n 5 ltac:(lia)) as Hr.
    set (q := n / 5) in *. set (r := n mod 5) in *.
    assert (Hlen : forall j, length (slice j (j + 5) g) = Nat.min 5 (n - j)).
    { intros j. by rewrite slice_five, length_take, length_drop. }
    assert (Hm : (n + 5 - 1) / 5 = if decide (r = 0) then q else S q).
    { destruct (decide (r = 0)) as [H0 | H0].
      - symmetry. apply (Nat.div_unique _ _ _ 4); lia.
      - symmetry. apply (Nat.div_unique _ _ _ (r - 1)); lia. }
    rewrite Hm. destruct (decide (r = 0)) as [H0 | H0].
    + rewrite app_nil_r. apply map_seq_const. intros j Hj. rewrite Hlen. lia.
    + rewrite seq_S, map_app. simpl. f_equal.
      * apply map_seq_const. intros j Hj. rewrite Hlen. lia.
      * rewrite Hlen. f_equal. lia.
Qed.

(** X15: the children of a view that all belong to one group (or are all
    ungrouped) are laid out in insertion order, five to a row, the remainder
    in a last shorter row. *)
Theorem to_components_row_sizes `{C : Collaborators} (w : World) (self : ref)
    (g : option Z) :
  children (views w self) <> [] ->
  Forall (fun x => group_id (items w x) = g) (children (views w self)) ->
  map (fun r => length (row_components r)) (to_components w self)
  = replicate (length (children (views w self)) / 5) 5
    ++ (if decide (length (children (views w self)) mod 5 = 0) then []
        else [length (children (views w self)) mod 5])
  /\ concat (map row_components (to_components w self))
     = map (fun x => to_component_dict (items w x)) (children (views w self)).
Proof.
  intros Hne Hg.
  assert (Hl : layout (key w) (children (views w self))
               = chunks (children (views w self))).
  { apply (layout_one_key (key w)
             (match g with Some z => z | None => maxsize end)); [done |].
    eapply Forall_impl; [exact Hg |]. simpl. intros x <-. reflexivity. }
  rewrite to_components_layout, Hl. split.
  - rewrite map_map. rewrite <- chunks_lengths by done.
    rewrite <- (map_map length (fun n => n)), map_id.
    apply map_ext. intros r. unfold row_of. simpl. apply length_map.
  - rewrite map_map. simpl.
    rewrite <- (chunks_concat (children (views w self))) at 2.
    by rewrite concat_map.
Qed.

Lemma to_components_row_sizes_witness :
  (children (views world0 5) <> []
   /\ Forall (fun x => group_id (items world0 x) = None) (children (views world0 5)))
  /\ map (fun r => length (row_components r)) (to_components (C := sample) world0 5)
     = [5; 5; 2].
Proof.
  assert (Hne : children (views world0 5) <> []) by discriminate.
  assert (Hg : Forall (fun x => group_id (items world0 x) = None)
                      (children (views world0 5)))
    by (simpl; repeat constructor).
  split; [split; [exact Hne | exact Hg] |].
  destruct (to_components_row_sizes (C := sample) world0 5 None Hne Hg) as (H & _).
  rewrite H. reflexivity.
Defined.

(** ** Reconciliation, continued *)

Section RefreshMembers.
Context `{C : Collaborators}.

Lemma old_state_fold_member (its : ref -> Item) (l : list ref)
    (m : gmap Key ref) (k : Key) (r : ref) :
  fold_left (fun d item =>
               if is_dispatchable (its item)
               then <[item_key (its item) := item]> d else d) l m !! k = Some r ->
  m !! k = Some r
  \/ (r ∈ l /\ is_dispatchable (its r) = true /\ item_key (its r) = k).
Proof.
  revert m. induction l as [| x l IH]; intros m H; simpl in H; [by left |].
  apply IH in H as [H | (Hin & Hd & Hk)].
  - destruct (is_dispatchable (its x)) eqn:Hx; [| by left].
    destruct (decide (item_key (its x) = k)) as [<- | Hne].
    + rewrite lookup_insert_eq in H. injection H as <-.
      right. repeat split; [left | done].
    + rewrite lookup_insert_ne in H by done. by left.
  - right. repeat split; [by right | done | done].
Qed.

Lemma old_state_member (w : World) (self : ref) (k : Key) (r : ref) :
  old_state w self !! k = Some r ->
  r ∈ children (views w self)
  /\ is_dispatchable (items w r) = true /\ item_key (items w r) = k.
Proof.
  intros H. apply old_state_fold_member in H as [H | H]; [| done].
  by rewrite lookup_empty in H.
Qed.

Lemma refresh_loop_frame (old : gmap Key ref) (comps : list Component) :
  forall (w : World) (acc : list ref),
    timers (refresh_loop old comps w acc).1 = timers w
    /\ tasks (refresh_loop old comps w acc).1 = tasks w
    /\ next_item (refresh_loop old comps w acc).1 <= next_item w + length comps.
Proof.
  induction comps as [| c rest IH]; intros w acc; simpl; [repeat split; lia |].
  destruct (lookup_older old c) as [[older d] |].
  - destruct (IH (set_item older (refresh_component d (items w older)) w)
                 (acc ++ [older])) as (-> & -> & Hn).
    simpl in *. repeat split; lia.
  - unfold new_item.
    destruct (IH {| items := upd (items w) (next_item w) (_component_to_item c);
                    next_item := S (next_item w); views := views w;
                    timers := timers w; tasks := tasks w; store := store w |}
                 (acc ++ [next_item w])) as (-> & -> & Hn).
    simpl in *. repeat split; lia.
Qed.

End RefreshMembers.

(** X16: [refresh] builds one child per component of the flattened list;
    each child is either a dispatchable child the view had before or a newly
    allocated item, so a child that is not dispatchable never survives a
    refresh; the store, the timers, the tasks and the other views are
    untouched, and at most one item per component is allocated. *)
Theorem refresh_members `{C : Collaborators} (w : World) (self : ref)
    (comps : list Component) :
  let w' := refresh w self comps in
  length (children (views w' self)) = length (_walk_all_components comps)
  /\ Forall (fun r => (r ∈ children (views w self)
                       /\ is_dispatchable (items w r) = true)
                      \/ (next_item w <= r /\ r < next_item w'))
            (children (views w' self))
  /\ store w' = store w
  /\ timers w' = timers w
  /\ tasks w' = tasks w
  /\ (forall v, v <> self -> views w' v = views w v)
  /\ next_item w <= next_item w'
  /\ next_item w' <= next_item w + length (_walk_all_components comps).
Proof.
  intros w'. subst w'. unfold refresh.
  set (flat := _walk_all_components comps).
  destruct (refresh_loop_spec (old_state w self) flat w [])
    as (Hv & Hs & Hn & new & Hnew & Hlen & Hall).
  destruct (refresh_loop_frame (old_state w self) flat w []) as (Ht & Hk & Hub).
  destruct (refresh_loop (old_state w self) flat w []) as [w1 cs] eqn:Hloop.
  simpl in *. rewrite upd_same. simpl. subst cs.
  split; [done |]. split; [| repeat split; try done].
  - apply Forall_lookup_2. intros i r Hi. simpl in Hi.
    assert (Hlt : i < length flat) by (rewrite <- Hlen; by eapply lookup_lt_Some).
    apply lookup_lt_is_Some_2 in Hlt as [c Hc].
    specialize (Hall i c Hc).
    destruct (lookup_older (old_state w self) c) as [[older d] |] eqn:Ho.
    + assert (r = older) as -> by congruence. left.
      unfold lookup_older in Ho.
      destruct (component_key c) as [[k d'] |]; [| done].
      destruct (old_state w self !! k) as [o |] eqn:Hk'; [| done].
      injection Ho as -> ->.
      by destruct (old_state_member w self k older Hk') as (? & ? & _).
    + destruct Hall as (r' & Hr' & Hlo & Hhi).
      assert (Some r = Some r') as [= ->] by (rewrite <- Hi; exact Hr').
      by right.
  - intros v Hne. rewrite upd_other by done. by rewrite Hv.
Qed.

(** X17: for a tracked message [update_from_message] returns; it refreshes
    the view the message is associated with, which then has one child per
    flattened component, and leaves the store, the association included, as
    it was. *)
Theorem update_from_message_tracked `{C : Collaborators} (w : World)
    (message_id : Z) (comps : list ComponentPayload) :
  is_message_tracked w message_id = true ->
  exists view,
    dict_get message_id (_synced_message_views (store w)) = Some view
    /\ update_from_message w message_id comps
       = (refresh w view (map _component_factory comps), Returns tt)
    /\ store (update_from_message w message_id comps).1 = store w
    /\ is_message_tracked (update_from_message w message_id comps).1 message_id
       = true
    /\ length (children (views (update_from_message w message_id comps).1 view))
       = length (_walk_all_components (map _component_factory comps)).
Proof.
  intros Ht. pose proof Ht as Ht'. unfold is_message_tracked in Ht.
  apply bool_decide_eq_true in Ht as [view Hview].
  exists view. unfold update_from_message. rewrite Hview. simpl.
  destruct (refresh_members w view (map _component_factory comps))
    as (Hlen & _ & Hs & _).
  repeat split; [done | | done].
  unfold is_message_tracked. by rewrite Hs.
Qed.

Lemma update_from_message_tracked_witness :
  is_message_tracked (add_view (C := sample) 0 0 world0 1 (Some 7%Z)).1 7 = true
  /\ exists view,
       dict_get 7 (_synced_message_views
                     (store (add_view (C := sample) 0 0 world0 1 (Some 7%Z)).1))
       = Some view
       /\ (update_from_message (C := sample)
             (add_view (C := sample) 0 0 world0 1 (Some 7%Z)).1 7
             [components.Leaf (menu_component "a")]).2 = Returns tt.
Proof.
  assert (H : is_message_tracked
                (add_view (C := sample) 0 0 world0 1 (Some 7%Z)).1 7 = true)
    by (vm_compute; reflexivity).
  split; [exact H |].
  destruct (update_from_message_tracked (C := sample) _ 7
              [components.Leaf (menu_component "a")] H)
    as (view & Hv & Hu & _).
  exists view. split; [exact Hv |]. by rewrite Hu.
Defined.

(** X18: [_walk_all_components] flattens exactly one level: the children of
    each action row take the row's place, whatever they are, every other
    component stays, and the order is kept. *)
Theorem walk_all_components_one_level (rows : list (list Component))
    (ds : list ComponentData) (l1 l2 : list Component) :
  _walk_all_components (map components.ActionRowComponent rows) = concat rows
  /\ _walk_all_components (map components.Leaf ds) = map components.Leaf ds
  /\ _walk_all_components (l1 ++ l2)
     = _walk_all_components l1 ++ _walk_all_components l2.
Proof.
  unfold _walk_all_components. split; [| split].
  - induction rows as [| r rows IH]; simpl; [done |]. by rewrite IH.
  - induction ds as [| d ds IH]; simpl; [done |]. by rewrite IH.
  - apply flat_map_app.
Qed.

(** ** Select menus, continued *)

(** X19: successive [append_option] calls all return exactly as long as the
    menu ends with at most 26 options, and then the menu holds its earlier
    options followed by the new ones in order, its selection and callback
    unchanged; otherwise the call that would pass 26 raises [ValueError]. *)
Theorem append_options_capacity (os : list SelectOption) (self : Item) :
  (os = [] \/ length (Select.options self) + length os <= 26 ->
   exists self', append_options os self = Returns self'
     /\ Select.options self' = Select.options self ++ os
     /\ Select.values self' = Select.values self
     /\ callback self' = callback self
     /\ Select.custom_id self' = Select.custom_id self)
  /\ (os <> [] -> 26 < length (Select.options self) + length os ->
      append_options os self = Raises ValueError).
Proof.
  revert self. induction os as [| o os IH]; intros self.
  - split; [| done]. intros _. exists self. simpl. by rewrite app_nil_r.
  - split.
    + intros [? | Hle]; [done |]. simpl in *.
      destruct (append_option_returns o self) as (s1 & Hr & Ho); [lia |].
      rewrite Hr.
      assert (Hs1 : Select.values s1 = Select.values self
                    /\ callback s1 = callback self
                    /\ Select.custom_id s1 = Select.custom_id self).
      { unfold Select.append_option in Hr.
        destruct (25 <? length (Select.options self)); [done |].
        injection Hr as <-. done. }
      destruct Hs1 as (Hv1 & Hc1 & Hi1).
      destruct (IH s1) as (Hok & _).
      destruct Hok as (s2 & -> & Ho2 & Hv2 & Hc2 & Hi2).
      { destruct os; [by left | right]. rewrite Ho, length_app. simpl in *. lia. }
      exists s2. rewrite Ho2, Ho, <- app_assoc. simpl.
      repeat split; congruence.
    + intros _ Hgt. simpl in *.
      destruct (Nat.le_gt_cases (length (Select.options self)) 25) as [Hle | Hlt].
      * destruct (append_option_returns o self Hle) as (s1 & -> & Ho).
        destruct (IH s1) as (_ & Hraise). apply Hraise.
        -- destruct os; [simpl in *; lia | done].
        -- rewrite Ho, length_app. simpl. lia.
      * by rewrite append_option_raises.
Qed.

Lemma append_options_capacity_witness :
  (length (Select.options (menu_with 20)) + length (replicate 6 an_option) <= 26
   /\ exists self', append_options (replicate 6 an_option) (menu_with 20)
                    = Returns self'
        /\ Select.options self'
           = Select.options (menu_with 20) ++ replicate 6 an_option)
  /\ (26 < length (Select.options (menu_with 20)) + length (replicate 7 an_option)
      /\ append_options (replicate 7 an_option) (menu_with 20) = Raises ValueError).
Proof.
  destruct (append_options_capacity (replicate 6 an_option) (menu_with 20))
    as (Hok & _).
  destruct (append_options_capacity (replicate 7 an_option) (menu_with 20))
    as (_ & Hraise).
  assert (H6 : length (Select.options (menu_with 20))
               + length (replicate 6 an_option) <= 26) by (simpl; lia).
  assert (H7 : 26 < length (Select.options (menu_with 20))
                    + length (replicate 7 an_option)) by (simpl; lia).
  split; split; [exact H6 | | exact H7 |].
  - destruct (Hok (or_intror H6)) as (s & Hs & Ho & _). by exists s.
  - apply Hraise; [discriminate | exact H7].
Defined.

(** X20: [Select.from_component] of the descriptor of a select menu gives a
    menu with that same descriptor (so the same key, options and payload),
    but without group and with an empty selection. *)
Theorem from_component_round_trip (c : ComponentData) (cb : Handler) :
  components.cls c = components.SelectMenu ->
  components.type c = components.select ->
  _underlying (Select.from_component c cb) = c
  /\ group_id (Select.from_component c cb) = None
  /\ Select.values (Select.from_component c cb) = [].
Proof.
  destruct c as [cl ty cid ph mn mx os]. simpl. intros -> ->. done.
Qed.

Lemma from_component_round_trip_witness :
  (components.cls (_underlying (menu "a" (Some 2%Z) 7)) = components.SelectMenu
   /\ components.type (_underlying (menu "a" (Some 2%Z) 7)) = components.select)
  /\ _underlying (Select.from_component (_underlying (menu "a" (Some 2%Z) 7)) 7)
     = _underlying (menu "a" (Some 2%Z) 7)
  /\ group_id (Select.from_component (_underlying (menu "a" (Some 2%Z) 7)) 7) = None.
Proof.
  split; [split; reflexivity |].
  destruct (from_component_round_trip (_underlying (menu "a" (Some 2%Z) 7)) 7)
    as (H1 & H2 & _); [reflexivity | reflexivity |].
  split; [exact H1 | exact H2].
Defined.

(** X21: on a select menu the two refreshes do not disturb each other:
    [refresh_component] replaces the descriptor and keeps the selected
    values, the callback and the group; [refresh_state] replaces the
    selected values and keeps the descriptor; they commute; and of two
    [refresh_state] calls the later one wins. *)
Theorem select_refreshes_independent (c : ComponentData) (i i' : Interaction)
    (self : Item) :
  Select.values (Select.refresh_component c self) = Select.values self
  /\ callback (Select.refresh_component c self) = callback self
  /\ group_id (Select.refresh_component c self) = group_id self
  /\ Select.custom_id (Select.refresh_component c self) = components.custom_id c
  /\ _underlying (Select.refresh_state i self) = _underlying self
  /\ Select.refresh_state i (Select.refresh_component c self)
     = Select.refresh_component c (Select.refresh_state i self)
  /\ Select.refresh_state i' (Select.refresh_state i self)
     = Select.refresh_state i' self.
Proof. repeat split. Qed.

(** ** The scheduled task, continued *)

(** X22: a scheduled task awaits at most one callback and calls [defer] at
    most once, and only after a callback that returned with the interaction
    still unresponded; an exception leaves the task exactly when the check
    raised outside [Exception], or the check admitted the interaction and
    either the callback raised or the call of [defer] did. *)
Theorem scheduled_task_bounds `{C : Collaborators} (w : World) (self item : ref)
    (interaction : Interaction) :
  let r := _scheduled_task w self item interaction in
  length (invoked r) <= 1
  /\ deferred r <= 1
  /\ (deferred r = 1 ->
      invoked r = [callback (items w item)]
      /\ exists after, run_callback (callback (items w item)) interaction
                       = HandlerReturns after
                       /\ _responded after = false)
  /\ (raised r = true <->
      interaction_check (views w self) interaction = CheckRaisesBase
      \/ (interaction_check (views w self) interaction = CheckReturns true
          /\ ((exists after, run_callback (callback (items w item)) interaction
                             = HandlerRaises after)
              \/ (exists after after',
                    run_callback (callback (items w item)) interaction
                      = HandlerReturns after
                    /\ _responded after = false
                    /\ response_defer after = DeferRaises after')))).
Proof.
  unfold _scheduled_task, run_item.
  destruct (interaction_check (views w self) interaction) as [[] | |] eqn:Hc; simpl.
  - destruct (run_callback (callback (items w item)) interaction) as [a | a] eqn:Hr.
    + destruct (_responded a) eqn:Ha; simpl.
      * repeat split; try done; try lia.
        intros [? | (_ & [(? & ?) | (x & y & [= <-] & ? & _)])]; congruence.
      * destruct (response_defer a) as [a' | a'] eqn:Hd; simpl.
        -- repeat split; try done; try lia; [by exists a |].
           intros [? | (_ & [(? & ?) | (x & y & [= <-] & _ & ?)])]; congruence.
        -- repeat split; try done; try lia; [by exists a |].
           intros _. right. split; [done |]. right. by exists a, a'.
    + simpl. repeat split; try done; try lia.
      intros _. right. split; [done |]. left. by exists a.
  - repeat split; try done; try lia.
    intros [? | (? & _)]; congruence.
  - repeat split; try done; try lia.
    intros [? | (? & _)]; congruence.
  - repeat split; try done; try lia. intros _. by left.
Qed.

Lemma scheduled_task_bounds_witness :
  (* handler 2 raises *)
  (interaction_check (Collaborators := sample) (views world0 1)
     (click (Some ["go"])) = CheckReturns true
   /\ run_callback (Collaborators := sample) 2 (click (Some ["go"]))
      = HandlerRaises (click (Some ["go"])))
  /\ raised (_scheduled_task (C := sample)
               (set_item 10 (menu "a" None 2) world0) 1 10 (click (Some ["go"])))
     = true.
Proof.
  split; [split; reflexivity |].
  destruct (scheduled_task_bounds (C := sample)
              (set_item 10 (menu "a" None 2) world0) 1 10 (click (Some ["go"])))
    as (_ & _ & _ & H).
  apply H. right. split; [reflexivity |]. left.
  exists (click (Some ["go"])). reflexivity.
Defined.

(** ** Removal and expiry against dispatch and stop *)

Section AfterRemoval.
Context `{C : Collaborators}.

Lemma stop_listening (w : World) (self : ref) :
  _stopped (views w self) = asyncio.Pending ->
  _cancel_callback (views w self) = Some store_remove_view ->
  exists w2, stop w self = remove_view w2 self
    /\ items w2 = items w /\ store w2 = store w
    /\ children (views w2 self) = children (views w self).
Proof.
  intros Hs Hc. unfold stop. rewrite Hs.
  change (asyncio.set_result false asyncio.Pending)
    with (Returns (asyncio.Done false)).
  cbv beta iota zeta.
  set (w1 := set_view self (with_stopped (asyncio.Done false) (views w self)) w).
  assert (H1 : views w1 self = with_stopped (asyncio.Done false) (views w self))
    by (subst w1; simpl; apply upd_same).
  set (w2 := match _timeout_handler (views w1 self) with
             | Some h => set_timers (alter asyncio.cancel h (timers w1)) w1
             | None => w1
             end).
  assert (H2 : views w2 = views w1 /\ store w2 = store w /\ items w2 = items w)
    by (subst w2; by destruct (_timeout_handler (views w1 self))).
  destruct H2 as (Hv2 & Hs2 & Hi2).
  rewrite Hv2, H1. simpl. rewrite Hc.
  exists w2. rewrite Hv2, H1. done.
Qed.

End AfterRemoval.

(** X23: after a [remove_view] that returned, a dispatch to the key of any
    dispatchable child of the view is a miss: nothing happens beyond the
    sweep and no task is created. *)
Theorem remove_view_then_dispatch `{C : Collaborators} (now_sweep now : float)
    (w : World) (view item : ref) (ct : Z) (cid : string) (i : Interaction) :
  (remove_view w view).2 = Returns tt ->
  item ∈ children (views w view) ->
  is_dispatchable (items w item) = true ->
  item_key (items w item) = (ct, Some cid) ->
  dispatch now_sweep now (remove_view w view).1 ct cid i
    = __verify_integrity now_sweep (remove_view w view).1
  /\ tasks (dispatch now_sweep now (remove_view w view).1 ct cid i) = tasks w.
Proof.
  intros Hr Hin Hd Hk.
  destruct (remove_view_pops w view) as (Hr2 & Hv & Ht & _).
  assert (Habs : _views (store (remove_view w view).1) !! (ct, Some cid) = None).
  { rewrite Hv, <- Hk. apply pop_items_returns_absent; [congruence | done | done]. }
  assert (Hd' : dispatch now_sweep now (remove_view w view).1 ct cid i
                = __verify_integrity now_sweep (remove_view w view).1).
  { unfold dispatch. by rewrite verify_integrity_lookup, Habs. }
  split; [done |]. rewrite Hd'. exact Ht.
Qed.

Lemma remove_view_then_dispatch_witness :
  ((remove_view (C := sample) world1 1).2 = Returns tt
   /\ 10 ∈ children (views world1 1)
   /\ is_dispatchable (C := sample) (items world1 10) = true
   /\ item_key (C := sample) (items world1 10) = (3%Z, Some "a"%string))
  /\ tasks (dispatch (C := sample) 5 6 (remove_view (C := sample) world1 1).1
              3 "a" (click None)) = tasks world1.
Proof.
  assert (Hr : (remove_view (C := sample) world1 1).2 = Returns tt)
    by (vm_compute; reflexivity).
  assert (H10 : 10 ∈ children (views world1 1)) by (vm_compute; left).
  split; [split; [exact Hr | split; [exact H10 | split; reflexivity]] |].
  destruct (remove_view_then_dispatch (C := sample) 5 6 world1 1 10 3 "a"
              (click None) Hr H10 eq_refl eq_refl) as (_ & H).
  exact H.
Defined.

(** X24: once the entry of a dispatchable child has expired and a sweep has
    run, the view can no longer be removed: [remove_view] raises [KeyError],
    and so does [stop] on a listening view, which has by then resolved the
    future with [False]. *)
Theorem expired_view_cannot_be_removed `{C : Collaborators} (now : float) (w : World)
    (view item v' it' : ref) (e : float) :
  item ∈ children (views w view) ->
  is_dispatchable (items w item) = true ->
  _views (store w) !! item_key (items w item) = Some (v', it', Some e) ->
  (e <=? now)%float = true ->
  (remove_view (__verify_integrity now w) view).2 = Raises KeyError
  /\ (_stopped (views w view) = asyncio.Pending ->
      _cancel_callback (views w view) = Some store_remove_view ->
      (stop (__verify_integrity now w) view).2 = Raises KeyError
      /\ _stopped (views (stop (__verify_integrity now w) view).1 view)
         = asyncio.Done false).
Proof.
  intros Hin Hd Hk Hle.
  set (w1 := __verify_integrity now w).
  assert (Habs : _views (store w1) !! item_key (items w item) = None).
  { subst w1. rewrite verify_integrity_lookup, Hk. unfold expired. simpl.
    by rewrite Hle. }
  split.
  - destruct (remove_view_pops w1 view) as (-> & _).
    by apply (pop_items_missing_raises _ w1 item).
  - intros Hs Hc.
    destruct (stop_listening w1 view Hs Hc) as (w2 & Hstop & Hi2 & Hs2 & Hc2).
    destruct (stop_pending w1 view Hs) as (_ & Hdone & _).
    split; [| exact Hdone].
    rewrite Hstop. destruct (remove_view_pops w2 view) as (-> & _).
    rewrite Hc2. apply (pop_items_missing_raises _ w2 item); [done | |].
    + by rewrite Hi2.
    + by rewrite Hs2, Hi2.
Qed.

Lemma expired_view_cannot_be_removed_witness :
  (10 ∈ children (views world1 1)
   /\ is_dispatchable (C := sample) (items world1 10) = true
   /\ _views (store world1) !! item_key (C := sample) (items world1 10)
      = Some (1, 10, Some 180%float)
   /\ (180 <=? 200)%float = true
   /\ _stopped (views world1 1) = asyncio.Pending
   /\ _cancel_callback (views world1 1) = Some store_remove_view)
  /\ (remove_view (C := sample) (__verify_integrity 200 world1) 1).2
     = Raises KeyError
  /\ (stop (C := sample) (__verify_integrity 200 world1) 1).2 = Raises KeyError.
Proof.
  assert (H10 : 10 ∈ children (views world1 1)) by (vm_compute; left).
  assert (Hk : _views (store world1) !! item_key (C := sample) (items world1 10)
               = Some (1, 10, Some 180%float)) by (vm_compute; reflexivity).
  assert (Hle : (180 <=? 200)%float = true) by reflexivity.
  assert (Hs : _stopped (views world1 1) = asyncio.Pending) by reflexivity.
  assert (Hc : _cancel_callback (views world1 1) = Some store_remove_view)
    by reflexivity.
  split; [repeat split; done |].
  destruct (expired_view_cannot_be_removed (C := sample) 200 world1 1 10 1 10 180
              H10 eq_refl Hk Hle) as (Hr & Hst).
  split; [exact Hr |]. destruct (Hst Hs Hc) as (H & _). exact H.
Defined.

(** ** Instances of the frame properties *)

Lemma verify_integrity_survivors_witness :
  (_views (store world1) !! (3%Z, Some "a"%string) = Some (1, 10, Some 180%float)
   /\ forall expiry, (1, 10, Some 180%float).2 = Some expiry
                      -> (expiry <=? 10)%float = false)
  /\ _views (store (__verify_integrity 10 world1)) !! (3%Z, Some "a"%string)
     = Some (1, 10, Some 180%float).
Proof.
  assert (H : _views (store world1) !! (3%Z, Some "a"%string)
              = Some (1, 10, Some 180%float)
              /\ forall expiry, (1, 10, Some 180%float).2 = Some expiry
                                -> (expiry <=? 10)%float = false).
  { split; [vm_compute; reflexivity |]. intros expiry [= <-]. reflexivity. }
  split; [exact H |].
  destruct (verify_integrity_survivors 10 world1 (3%Z, Some "a"%string)
              (1, 10, Some 180%float)) as (Hiff & _).
  apply Hiff. exact H.
Defined.

Lemma refresh_members_witness :
  2 <> 1
  /\ views (refresh (C := sample) world0 1 [components.Leaf (menu_component "a")]) 2
     = views world0 2.
Proof.
  assert (H : 2 <> 1) by discriminate.
  split; [exact H |].
  destruct (refresh_members (C := sample) world0 1
              [components.Leaf (menu_component "a")])
    as (_ & _ & _ & _ & _ & Hv & _).
  exact (Hv 2 H).
Defined.
